(** * QDirStat package-manager support (src/PkgManager.cpp)

    A shallow embedding of [PkgQuery] and of the three package-manager
    backends ([DpkgPkgManager], [RpmPkgManager], [PacManPkgManager]),
    together with the properties of the ownership cache, of the backend
    registry and of the output parsers. *)

From Stdlib Require Import List String Ascii ZArith Lia Bool Arith DecimalString.
Import ListNotations.

Open Scope string_scope.
Open Scope list_scope.

(** ** QString operations used by PkgManager.cpp

    Strings are [string]; the operations below follow the Qt semantics of
    the calls the source makes (case-sensitive, literal separators). *)

Module QString.

(** [s.isEmpty()] *)
Definition isEmpty (s : string) : bool :=
  match s with
  | EmptyString => true
  | String _ _ => false
  end.

(** [s.startsWith( p )] *)
Fixpoint startsWith (s p : string) : bool :=
  match p, s with
  | EmptyString, _ => true
  | String _ _, EmptyString => false
  | String a p', String b s' => Ascii.eqb a b && startsWith s' p'
  end.

(** [s.contains( needle )]: [needle] occurs somewhere in [s]. *)
Fixpoint contains (s needle : string) : bool :=
  match s with
  | EmptyString => startsWith s needle
  | String _ s' => startsWith s needle || contains s' needle
  end.

(** [s.mid( n )]: [s] without its first [n] characters. *)
Fixpoint mid (s : string) (n : nat) : string :=
  match n, s with
  | O, _ => s
  | S _, EmptyString => EmptyString
  | S n', String _ s' => mid s' n'
  end.

(** [s.split( sep )] for a one-character separator, with the default
    [QString::KeepEmptyParts]: every separator ends a field, empty fields
    are kept, and the empty string splits into one empty field. *)
Fixpoint split (sep : ascii) (s : string) : list string :=
  match s with
  | EmptyString => [EmptyString]
  | String c s' =>
      if Ascii.eqb c sep then EmptyString :: split sep s'
      else match split sep s' with
           | f :: fs => String c f :: fs
           | [] => [String c EmptyString]
           end
  end.

(** [s.section( sep, 0, 0 )] for a one-character separator: the text in
    front of the first separator, the whole string when there is none. *)
Fixpoint section_0_0 (sep : ascii) (s : string) : string :=
  match s with
  | EmptyString => EmptyString
  | String c s' =>
      if Ascii.eqb c sep then EmptyString else String c (section_0_0 sep s')
  end.

(** The remainder behind the last occurrence of [lit] in [s], if [lit]
    occurs at all. *)
Fixpoint afterLast (lit s : string) : option string :=
  match s with
  | EmptyString =>
      if startsWith s lit then Some (mid s (String.length lit)) else None
  | String _ s' =>
      match afterLast lit s' with
      | Some r => Some r
      | None =>
          if startsWith s lit then Some (mid s (String.length lit)) else None
      end
  end.

(** [s.remove( QRegExp( "^.*" + lit ) )] for a literal [lit]: the pattern
    is anchored at the start and [.*] is greedy, so the match reaches to
    the end of the last occurrence of [lit]; without an occurrence nothing
    is removed. *)
Definition removeThroughLast (lit s : string) : string :=
  match afterLast lit s with
  | Some r => r
  | None => s
  end.

End QString.

(** ** PkgInfo *)

(** [PkgInfo( name, version, arch )] *)
Record PkgInfo : Type := mkPkgInfo {
  pkgName : string;
  pkgVersion : string;
  pkgArch : string
}.

Definition PkgInfoList : Type := list PkgInfo.

(** [QStringList::takeFirst()]: the first item and the list without it. *)
Definition takeFirst (l : list string) : string * list string :=
  match l with
  | x :: r => (x, r)
  | [] => (EmptyString, [])
  end.

Definition newline : ascii := "010"%char.
Definition blank : ascii := " "%char.
Definition colon : ascii := ":"%char.

(** ** DpkgPkgManager::parsePkgList *)

(** One iteration of the [foreach] over the lines of the output. *)
Definition parsePkgList_step (pkgList : PkgInfoList) (line : string) : PkgInfoList :=
  if negb (QString.isEmpty line) then
    let fields := QString.split blank line in
    if negb (Nat.eqb (List.length fields) 3) then
      pkgList                     (* logError(): the line is dropped *)
    else
      let '(name, fields1) := takeFirst fields in
      let '(arch, fields2) := takeFirst fields1 in
      let '(version, _) := takeFirst fields2 in
      pkgList ++ [mkPkgInfo name version arch]
  else pkgList.

Definition parsePkgList (output : string) : PkgInfoList :=
  fold_left parsePkgList_step (QString.split newline output) [].

(** The line-by-line reading of the same parser: the record a single line
    contributes, if any.  Used to state what [parsePkgList] computes. *)
Definition dpkgLineFields (line : string) : list string :=
  QString.split blank line.

Definition dpkgLineAccepted (line : string) : bool :=
  negb (QString.isEmpty line) && Nat.eqb (List.length (dpkgLineFields line)) 3.

Definition dpkgLineRecord (line : string) : PkgInfo :=
  mkPkgInfo (nth 0 (dpkgLineFields line) EmptyString)
            (nth 2 (dpkgLineFields line) EmptyString)
            (nth 1 (dpkgLineFields line) EmptyString).

(** The reading of the specification: fields are separated by runs of
    white space (blank, tab, line feed, vertical tab, form feed, carriage
    return). *)
Definition isWhiteSpace (c : ascii) : bool :=
  match c with
  | " "%char | "009"%char | "010"%char | "011"%char | "012"%char | "013"%char => true
  | _ => false
  end.

Fixpoint whiteSpaceFields_aux (s : string) (cur : string) : list string :=
  match s with
  | EmptyString =>
      if QString.isEmpty cur then [] else [cur]
  | String c s' =>
      if isWhiteSpace c then
        (if QString.isEmpty cur then [] else [cur]) ++ whiteSpaceFields_aux s' EmptyString
      else whiteSpaceFields_aux s' (cur ++ String c EmptyString)%string
  end.

Definition whiteSpaceFields (s : string) : list string :=
  whiteSpaceFields_aux s EmptyString.

Definition parsePkgList_whiteSpace (output : string) : PkgInfoList :=
  flat_map
    (fun line =>
       match whiteSpaceFields line with
       | [name; arch; version] => [mkPkgInfo name version arch]
       | _ => []
       end)
    (QString.split newline output).

(** ** The host system

    Running a command is an effect on the host.  A computation takes the
    state of the host, and gives its result, the new state of the host and
    the trace of what it did there, oldest event first. *)

Inductive Method : Type :=
| IsPrimaryPkgManager
| IsAvailable
| OwningPkg (path : string)
| InstalledPkg
| FileList (pkg : PkgInfo).

Inductive Event : Type :=
| RunCommand (command : string) (args : list string)
| TryRunCommand (commandLine : string) (expectedResult : string)
| HaveCommand (command : string)
| Invoke (manager : string) (method : Method).

Definition M (World A : Type) : Type := World -> A * World * list Event.

Definition ret {World A : Type} (a : A) : M World A :=
  fun w => (a, w, []).

Definition bind {World A B : Type} (m : M World A) (k : A -> M World B) : M World B :=
  fun w =>
    let '(a, w1, e1) := m w in
    let '(b, w2, e2) := k a w1 in
    (b, w2, e1 ++ e2).

Notation "x <- m ;; k" := (bind m (fun x => k))
  (at level 61, m at next level, right associativity).

Definition value {World A : Type} (r : A * World * list Event) : A := fst (fst r).
Definition world {World A : Type} (r : A * World * list Event) : World := snd (fst r).
Definition trace {World A : Type} (r : A * World * list Event) : list Event := snd r.

(** ** QCache< QString, QString >

    Modelled from the spec: the Query Cache is Qt's [QCache], whose code is
    not part of src/.  It is a cost-bounded store: [insert] first removes an
    entry of the same key, refuses an object whose cost exceeds the maximum,
    evicts entries until the new one fits, and puts the new entry at the
    most-recently-used end; [operator[]] moves the entry it finds to that
    end, [contains] moves nothing.  Which entry an eviction takes is the
    parameter [victim] (an index into the entries, most recently used
    first); Qt takes the least recently used one, [lru]. *)

Module QCache.

Record Node : Type := mkNode {
  key : string;
  object : string;
  cost : Z
}.

Record t : Type := mk {
  nodes : list Node;          (* most recently used first *)
  mx : Z                      (* maximum total cost *)
}.

Definition empty : t := mk [] 100.   (* QCache's default maxCost is 100 *)

Definition total (ns : list Node) : Z :=
  fold_right (fun n acc => (cost n + acc)%Z) 0%Z ns.

Definition lru (ns : list Node) : nat := List.length ns - 1.

Fixpoint removeAt (i : nat) (ns : list Node) {struct ns} : list Node :=
  match ns with
  | [] => []
  | n :: ns' =>
      match i with
      | O => ns'
      | S i' => n :: removeAt i' ns'
      end
  end.

(** [remove( k )] on the entries. *)
Definition removeKey (k : string) (ns : list Node) : list Node :=
  filter (fun n => negb (String.eqb (key n) k)) ns.

Section Policy.
Variable victim : list Node -> nat.

Definition evict (ns : list Node) : list Node :=
  removeAt (Nat.min (victim ns) (List.length ns - 1)) ns.

(** [trim( m )]: evict while there is an entry left and the total cost
    exceeds [m]; every round takes one entry, so [length ns] rounds are
    enough. *)
Fixpoint trim_loop (rounds : nat) (m : Z) (ns : list Node) : list Node :=
  match rounds with
  | O => ns
  | S rounds' =>
      match ns with
      | [] => []
      | _ :: _ =>
          if (total ns >? m)%Z then trim_loop rounds' m (evict ns) else ns
      end
  end.

Definition trim (m : Z) (ns : list Node) : list Node :=
  trim_loop (List.length ns) m ns.

Definition setMaxCost (c : t) (m : Z) : t :=
  mk (trim m (nodes c)) m.

(** [insert( akey, aobject, acost )] *)
Definition insert (c : t) (akey aobject : string) (acost : Z) : bool * t :=
  let ns := removeKey akey (nodes c) in
  if (acost >? mx c)%Z then (false, mk ns (mx c))
  else (true, mk (mkNode akey aobject acost :: trim (mx c - acost) ns) (mx c)).

End Policy.

Definition contains (c : t) (k : string) : bool :=
  existsb (fun n => String.eqb (key n) k) (nodes c).

(** The object stored under [k], without touching the order. *)
Definition peek (c : t) (k : string) : option string :=
  match find (fun n => String.eqb (key n) k) (nodes c) with
  | Some n => Some (object n)
  | None => None
  end.

(** [operator[]( k )]: the object stored under [k]; the entry becomes the
    most recently used one. *)
Definition lookup (c : t) (k : string) : option string * t :=
  match find (fun n => String.eqb (key n) k) (nodes c) with
  | Some n =>
      (Some (object n),
       mk (n :: removeKey k (nodes c)) (mx c))
  | None => (None, c)
  end.

Definition count (c : t) : nat := List.length (nodes c).

Definition keys (c : t) : list string := map key (nodes c).

End QCache.

Definition CACHE_SIZE : Z := 500.
Definition CACHE_COST : Z := 1.

(** The literal of the pattern [QRegExp( "^.*is owned by " )]. *)
Definition ownedBy : string := "is owned by ".

Inductive Class : Type := Primary | Secondary | Absent.

Definition Class_eqb (a b : Class) : bool :=
  match a, b with
  | Primary, Primary | Secondary, Secondary | Absent, Absent => true
  | _, _ => false
  end.

(** ** SysUtil and the package managers *)

Section Host.

(** The state of the host system: its files and its package databases. *)
Variable World : Type.

(** SysUtil.h is not part of src/; what its three functions answer on a
    given host is a parameter.  [runCommand] gives the output and the exit
    code, [tryRunCommand] whether the command succeeded with an output
    matching the expected pattern, [haveCommand] whether the command
    exists. *)
Variable sys_runCommand : string -> list string -> World -> (string * Z) * World.
Variable sys_tryRunCommand : string -> string -> World -> bool * World.
Variable sys_haveCommand : string -> World -> bool * World.

Definition runCommand (command : string) (args : list string) : M World (string * Z) :=
  fun w => let '(r, w') := sys_runCommand command args w in
           (r, w', [RunCommand command args]).

Definition tryRunCommand (commandLine expectedResult : string) : M World bool :=
  fun w => let '(r, w') := sys_tryRunCommand commandLine expectedResult w in
           (r, w', [TryRunCommand commandLine expectedResult]).

Definition haveCommand (command : string) : M World bool :=
  fun w => let '(r, w') := sys_haveCommand command w in
           (r, w', [HaveCommand command]).

(** The abstract class [PkgManager]: one record of methods per object. *)
Record PkgManager : Type := mkPkgManager {
  name : string;
  isPrimaryPkgManager : M World bool;
  isAvailable : M World bool;
  owningPkg : string -> M World string;
  installedPkg : M World PkgInfoList;
  fileList : PkgInfo -> M World (list string)
}.

(** A virtual call [pkgManager->method( ... )]; the call itself is put on
    the trace, in front of what the method does. *)
Definition invoke {A : Type} (pm : PkgManager) (method : Method) (body : M World A)
  : M World A :=
  fun w => let '(a, w', e) := body w in (a, w', Invoke (name pm) method :: e).

(** *** DpkgPkgManager *)

Definition DpkgPkgManager_isPrimaryPkgManager : M World bool :=
  tryRunCommand "/usr/bin/dpkg -S /usr/bin/dpkg" "^dpkg:.*".

Definition DpkgPkgManager_isAvailable : M World bool :=
  haveCommand "/usr/bin/dpkg".

Definition DpkgPkgManager_owningPkg (path : string) : M World string :=
  r <- runCommand "/usr/bin/dpkg" ["-S"; path] ;;
  let '(output, exitCode) := r in
  if negb (Z.eqb exitCode 0) || QString.contains output "no path found matching pattern"
  then ret EmptyString
  else ret (QString.section_0_0 colon output).

Definition DpkgPkgManager_installedPkg : M World PkgInfoList :=
  r <- runCommand "/usr/bin/dpkg-query"
         ["--show";
          ("--showformat=${Package} ${Architecture} ${Version}" ++ String newline EmptyString)%string] ;;
  let '(output, exitCode) := r in
  if Z.eqb exitCode 0 then ret (parsePkgList output) else ret [].

Definition DpkgPkgManager_fileList (pkg : PkgInfo) : M World (list string) :=
  ret [].

(** *** RpmPkgManager *)

Record RpmPkgManager : Type := mkRpmPkgManager {
  _rpmCommand : string
}.

(** The constructor. *)
Definition RpmPkgManager_new : M World RpmPkgManager :=
  have <- haveCommand "/usr/bin/rpm" ;;
  if have then ret (mkRpmPkgManager "/usr/bin/rpm")
  else ret (mkRpmPkgManager "/bin/rpm").

(** [QString( "%1 -qf %1" ).arg( cmd )] *)
Definition rpmSelfQuery (cmd : string) : string :=
  (cmd ++ " -qf " ++ cmd)%string.

Definition RpmPkgManager_isPrimaryPkgManager (this : RpmPkgManager) : M World bool :=
  tryRunCommand (rpmSelfQuery (_rpmCommand this)) "^rpm.*".

Definition RpmPkgManager_isAvailable (this : RpmPkgManager) : M World bool :=
  haveCommand (_rpmCommand this).

Definition RpmPkgManager_owningPkg (this : RpmPkgManager) (path : string)
  : M World string :=
  r <- runCommand (_rpmCommand this) ["-qf"; "--queryformat"; "%{NAME}"; path] ;;
  let '(output, exitCode) := r in
  if negb (Z.eqb exitCode 0) || QString.contains output "not owned by any package"
  then ret EmptyString
  else ret output.

(** *** PacManPkgManager *)

Definition PacManPkgManager_isPrimaryPkgManager : M World bool :=
  tryRunCommand "/usr/bin/pacman -Qo /usr/bin/pacman" ".*is owned by pacman.*".

Definition PacManPkgManager_isAvailable : M World bool :=
  haveCommand "/usr/bin/pacman".

Definition PacManPkgManager_owningPkg (path : string) : M World string :=
  r <- runCommand "/usr/bin/pacman" ["-Qo"; path] ;;
  let '(output, exitCode) := r in
  if negb (Z.eqb exitCode 0) || QString.contains output "No package owns"
  then ret EmptyString
  else
    let output' := QString.removeThroughLast ownedBy output in
    ret (QString.section_0_0 blank output').

(** *** The three classes as [PkgManager] objects

    Modelled from the spec: PkgManager.h is not part of src/.  The three
    variants are Dpkg, Rpm and Pacman, and [name()] is taken to give "dpkg",
    "rpm" and "pacman".  The [installedPkg] and [fileList] of the two
    classes that do not define them in PkgManager.cpp are parameters. *)
Variable rpm_installedPkg : M World PkgInfoList.
Variable rpm_fileList : PkgInfo -> M World (list string).
Variable pacman_installedPkg : M World PkgInfoList.
Variable pacman_fileList : PkgInfo -> M World (list string).

Definition DpkgPkgManager : PkgManager :=
  mkPkgManager "dpkg"
    DpkgPkgManager_isPrimaryPkgManager
    DpkgPkgManager_isAvailable
    DpkgPkgManager_owningPkg
    DpkgPkgManager_installedPkg
    DpkgPkgManager_fileList.

Definition RpmPkgManager_upcast (this : RpmPkgManager) : PkgManager :=
  mkPkgManager "rpm"
    (RpmPkgManager_isPrimaryPkgManager this)
    (RpmPkgManager_isAvailable this)
    (RpmPkgManager_owningPkg this)
    rpm_installedPkg
    rpm_fileList.

Definition PacManPkgManager : PkgManager :=
  mkPkgManager "pacman"
    PacManPkgManager_isPrimaryPkgManager
    PacManPkgManager_isAvailable
    PacManPkgManager_owningPkg
    pacman_installedPkg
    pacman_fileList.

(** ** PkgQuery *)

Variable victim : list QCache.Node -> nat.

Record PkgQuery : Type := mkPkgQuery {
  _cache : QCache.t;
  _pkgManagers : list PkgManager;
  _secondaryPkgManagers : list PkgManager
}.

Definition checkPkgManager (this : PkgQuery) (pkgManager : PkgManager) : M World PkgQuery :=
  primary <- invoke pkgManager IsPrimaryPkgManager (isPrimaryPkgManager pkgManager) ;;
  if primary then
    ret (mkPkgQuery (_cache this)
                    (_pkgManagers this ++ [pkgManager])
                    (_secondaryPkgManagers this))
  else
    available <- invoke pkgManager IsAvailable (isAvailable pkgManager) ;;
    if available then
      ret (mkPkgQuery (_cache this)
                      (_pkgManagers this)
                      (_secondaryPkgManagers this ++ [pkgManager]))
    else
      ret this.                 (* delete pkgManager *)

Definition checkPkgManagers (this : PkgQuery) : M World PkgQuery :=
  this1 <- checkPkgManager this DpkgPkgManager ;;
  rpm <- RpmPkgManager_new ;;
  this2 <- checkPkgManager this1 (RpmPkgManager_upcast rpm) ;;
  this3 <- checkPkgManager this2 PacManPkgManager ;;
  ret (mkPkgQuery (_cache this3)
                  (_pkgManagers this3 ++ _secondaryPkgManagers this3)
                  []).

(** The constructor [PkgQuery::PkgQuery()]. *)
Definition PkgQuery_new : M World PkgQuery :=
  checkPkgManagers
    (mkPkgQuery (QCache.setMaxCost victim QCache.empty CACHE_SIZE) [] []).

(** [PkgQuery::instance()]: the object is built on first use. *)
Definition instance (_instance : option PkgQuery) : M World PkgQuery :=
  match _instance with
  | Some this => ret this
  | None => PkgQuery_new
  end.

Definition foundSupportedPkgManager (this : PkgQuery) : bool :=
  negb (match _pkgManagers this with [] => true | _ :: _ => false end).

(** The [foreach] of [getOwningPackage]: [pkg] is assigned in every
    round, and the loop is left at the first answer that is not empty. *)
Fixpoint getOwningPackage_loop (pkgManagers : list PkgManager) (path pkg : string)
  : M World string :=
  match pkgManagers with
  | [] => ret pkg
  | pkgManager :: rest =>
      pkg' <- invoke pkgManager (OwningPkg path) (owningPkg pkgManager path) ;;
      if negb (QString.isEmpty pkg') then ret pkg'
      else getOwningPackage_loop rest path pkg'
  end.

(** [getOwningPackage] gives the package and the object with its cache
    updated.  The log lines, and [haveResult] and [foundBy] which only feed
    them, are left out. *)
Definition getOwningPackage (this : PkgQuery) (path : string)
  : M World (string * PkgQuery) :=
  if QCache.contains (_cache this) path then
    let '(found, cache') := QCache.lookup (_cache this) path in
    let pkg := match found with Some p => p | None => EmptyString end in
    ret (pkg, mkPkgQuery cache' (_pkgManagers this) (_secondaryPkgManagers this))
  else
    pkg <- getOwningPackage_loop (_pkgManagers this) path EmptyString ;;
    let '(_, cache') := QCache.insert victim (_cache this) path pkg CACHE_COST in
    ret (pkg, mkPkgQuery cache' (_pkgManagers this) (_secondaryPkgManagers this)).

(** The [foreach] of [getInstalledPkg]. *)
Fixpoint getInstalledPkg_loop (pkgManagers : list PkgManager) (pkgList : PkgInfoList)
  : M World PkgInfoList :=
  match pkgManagers with
  | [] => ret pkgList
  | pkgManager :: rest =>
      l <- invoke pkgManager InstalledPkg (installedPkg pkgManager) ;;
      getInstalledPkg_loop rest (pkgList ++ l)
  end.

Definition getInstalledPkg (this : PkgQuery) : M World PkgInfoList :=
  getInstalledPkg_loop (_pkgManagers this) [].

Fixpoint getFileList_loop (pkgManagers : list PkgManager) (pkg : PkgInfo)
  : M World (list string) :=
  match pkgManagers with
  | [] => ret []
  | pkgManager :: rest =>
      fl <- invoke pkgManager (FileList pkg) (fileList pkgManager pkg) ;;
      match fl with
      | _ :: _ => ret fl
      | [] => getFileList_loop rest pkg
      end
  end.

Definition getFileList (this : PkgQuery) (pkg : PkgInfo) : M World (list string) :=
  getFileList_loop (_pkgManagers this) pkg.

(** ** Reading a run

    What the statements below speak of: the answers of a list of managers
    asked one after the other, and how the registry build classifies a
    manager. *)

Fixpoint askAll {A : Type} (ask : PkgManager -> M World A) (pms : list PkgManager)
  : M World (list A) :=
  match pms with
  | [] => ret []
  | pm :: rest =>
      a <- ask pm ;;
      answers <- askAll ask rest ;;
      ret (a :: answers)
  end.

Definition askOwningPkg (path : string) (pm : PkgManager) : M World string :=
  invoke pm (OwningPkg path) (owningPkg pm path).

Definition askInstalledPkg (pm : PkgManager) : M World PkgInfoList :=
  invoke pm InstalledPkg (installedPkg pm).

Definition askFileList (pkg : PkgInfo) (pm : PkgManager) : M World (list string) :=
  invoke pm (FileList pkg) (fileList pm pkg).

(** What the registry build finds out about a manager: it attests its own
    executable (primary), or it is merely installed (secondary), or it is
    not there. *)
Definition classify (pm : PkgManager) : M World Class :=
  primary <- invoke pm IsPrimaryPkgManager (isPrimaryPkgManager pm) ;;
  if primary then ret Primary
  else
    available <- invoke pm IsAvailable (isAvailable pm) ;;
    if available then ret Secondary else ret Absent.

(** The three managers in probe order, each with its class. *)
Definition probeAll : M World (list (PkgManager * Class)) :=
  dpkgClass <- classify DpkgPkgManager ;;
  rpm <- RpmPkgManager_new ;;
  rpmClass <- classify (RpmPkgManager_upcast rpm) ;;
  pacmanClass <- classify PacManPkgManager ;;
  ret [(DpkgPkgManager, dpkgClass);
       (RpmPkgManager_upcast rpm, rpmClass);
       (PacManPkgManager, pacmanClass)].

Definition classified (c : Class) (probed : list (PkgManager * Class))
  : list PkgManager :=
  map fst (filter (fun x => Class_eqb (snd x) c) probed).

(** One [getOwningPackage] call per path, in order. *)
Fixpoint getOwningPackages (this : PkgQuery) (paths : list string) : M World PkgQuery :=
  match paths with
  | [] => ret this
  | path :: rest =>
      r <- getOwningPackage this path ;;
      getOwningPackages (snd r) rest
  end.

End Host.

Arguments runCommand {World} sys_runCommand command args _.
Arguments tryRunCommand {World} sys_tryRunCommand commandLine expectedResult _.
Arguments haveCommand {World} sys_haveCommand command _.
Arguments mkPkgManager {World} name isPrimaryPkgManager isAvailable owningPkg
  installedPkg fileList.
Arguments name {World} p.
Arguments isPrimaryPkgManager {World} p _.
Arguments isAvailable {World} p _.
Arguments owningPkg {World} p path _.
Arguments installedPkg {World} p _.
Arguments fileList {World} p pkg _.
Arguments invoke {World A} pm method body _.
Arguments DpkgPkgManager_owningPkg {World} sys_runCommand path _.
Arguments RpmPkgManager_new {World} sys_haveCommand _.
Arguments RpmPkgManager_isPrimaryPkgManager {World} sys_tryRunCommand this _.
Arguments RpmPkgManager_isAvailable {World} sys_haveCommand this _.
Arguments RpmPkgManager_owningPkg {World} sys_runCommand this path _.
Arguments PacManPkgManager_owningPkg {World} sys_runCommand path _.
Arguments mkPkgQuery {World} _cache _pkgManagers _secondaryPkgManagers.
Arguments _cache {World} p.
Arguments _pkgManagers {World} p.
Arguments _secondaryPkgManagers {World} p.
Arguments getOwningPackage_loop {World} pkgManagers path pkg _.
Arguments getOwningPackage {World} victim this path _.
Arguments getOwningPackages {World} victim this paths _.
Arguments getInstalledPkg_loop {World} pkgManagers pkgList _.
Arguments getInstalledPkg {World} this _.
Arguments getFileList_loop {World} pkgManagers pkg _.
Arguments getFileList {World} this pkg _.
Arguments foundSupportedPkgManager {World} this.
Arguments askAll {World A} ask pms _.
Arguments askOwningPkg {World} path pm _.
Arguments askInstalledPkg {World} pm _.
Arguments askFileList {World} pkg pm _.

Arguments classify {World} pm _.
Arguments classified {World} c probed.

(** The first white-space-delimited token of a text. *)
Definition firstToken (s : string) : string :=
  hd EmptyString (whiteSpaceFields s).

(** [c] occurs in [s]. *)
Fixpoint hasChar (c : ascii) (s : string) : bool :=
  match s with
  | EmptyString => false
  | String a s' => Ascii.eqb a c || hasChar c s'
  end.

(** A manager without the host: it reports [owner path] as the owner of
    [path], [pkgs] as installed and [files] as the files of every package. *)
Definition constManager {World : Type} (mname : string)
    (owner : string -> string) (pkgs : PkgInfoList) (files : list string)
  : PkgManager World :=
  mkPkgManager mname (ret false) (ret true)
    (fun path => ret (owner path))
    (ret pkgs)
    (fun _ => ret files).

(** ** Test doubles

    Hosts and package managers with fixed answers.  The state of a fake host
    counts the calls that reached it. *)

Module Fake.

Definition World : Type := nat.

Definition answer {A : Type} (a : A) : M World A :=
  fun w => (a, S w, []).

(** A manager that reports [owner path] as the owner of [path], [pkgs] as
    installed and [files] as the files of every package. *)
Definition manager (mname : string) (primary available : bool)
    (owner : string -> string) (pkgs : PkgInfoList) (files : list string)
  : PkgManager World :=
  mkPkgManager mname (answer primary) (answer available)
    (fun path => answer (owner path))
    (answer pkgs)
    (fun _ => answer files).

(** A host on which every command prints [output] and exits with
    [exitCode]. *)
Definition run (output : string) (exitCode : Z)
  : string -> list string -> World -> (string * Z) * World :=
  fun _ _ w => ((output, exitCode), S w).

(** A host that has exactly the commands of [present], and on which a
    probe succeeds exactly for the command lines of [attested]. *)
Definition have (present : list string) : string -> World -> bool * World :=
  fun command w => (existsb (String.eqb command) present, S w).

Definition tryRun (attested : list string) : string -> string -> World -> bool * World :=
  fun commandLine _ w => (existsb (String.eqb commandLine) attested, S w).

Definition tab : string := String "009"%char EmptyString.

(** [n] distinct paths. *)
Definition pathNo (n : nat) : string :=
  ("/p/" ++ NilEmpty.string_of_uint (Nat.to_uint n))%string.

Definition paths (n : nat) : list string := map pathNo (seq 0 n).

End Fake.

Fixpoint nodupb (l : list string) : bool :=
  match l with
  | [] => true
  | x :: r => negb (existsb (String.eqb x) r) && nodupb r
  end.

(** ** Sample inputs and the invariant of the cache *)

Definition unitCost (n : QCache.Node) : Prop := QCache.cost n = CACHE_COST.

(** What holds of the cache of a [PkgQuery] at all times. *)
Definition cacheInv (c : QCache.t) : Prop :=
  QCache.mx c = CACHE_SIZE /\
  Forall unitCost (QCache.nodes c) /\
  NoDup (QCache.keys c) /\
  (QCache.count c <= 500)%nat.

Definition dpkgListing : string :=
  ("pkgA amd64 1.0" ++ String newline "GARBAGE" ++ String newline "pkgB amd64 2.0")%string.

Definition pacmanSample : string := "/usr/bin/pacman is owned by pacman 5.1.1-3".

Definition pacmanTabbed : string :=
  ("/a is owned by b" ++ Fake.tab ++ "c")%string.

Definition fakeOwner : PkgManager Fake.World :=
  Fake.manager "fake" true true (fun _ => "pkg") [] [].

Definition fakeQuery : PkgQuery Fake.World :=
  mkPkgQuery (QCache.setMaxCost QCache.lru QCache.empty CACHE_SIZE) [fakeOwner] [].

Definition managerA : PkgManager Fake.World :=
  Fake.manager "A" true true (fun _ => "pkgA") [] [].

Definition managerB : PkgManager Fake.World :=
  Fake.manager "B" false true (fun _ => "pkgB") [] ["b"].

Definition managerNone (mname : string) : PkgManager Fake.World :=
  Fake.manager mname false true (fun _ => EmptyString) [] [].

Definition managerFiles : PkgManager Fake.World :=
  Fake.manager "F" false true (fun _ => EmptyString) [] ["a"; "b"].

Definition queryOf (pms : list (PkgManager Fake.World)) : PkgQuery Fake.World :=
  mkPkgQuery (QCache.mk [] CACHE_SIZE) pms [].

Definition somePkg : PkgInfo := mkPkgInfo "bash" "5.1" "amd64".

(** A host with dpkg in control, pacman installed, and no rpm. *)
Definition fakeHostQuery : M Fake.World (PkgQuery Fake.World) :=
  PkgQuery_new Fake.World (Fake.run EmptyString 1)
    (Fake.tryRun ["/usr/bin/dpkg -S /usr/bin/dpkg"])
    (Fake.have ["/usr/bin/dpkg"; "/usr/bin/pacman"])
    (Fake.answer []) (fun _ => Fake.answer [])
    (Fake.answer []) (fun _ => Fake.answer [])
    QCache.lru.

(** ** The listing of dpkg-query

    [installedPkg] asks dpkg-query for one line per package, in the format
    "${Package} ${Architecture} ${Version}" followed by a line feed. *)

Definition showformat (pkg : PkgInfo) : string :=
  (pkgName pkg ++ " " ++ pkgArch pkg ++ " " ++ pkgVersion pkg
   ++ String newline EmptyString)%string.

Definition showPkgList (pkgs : PkgInfoList) : string :=
  fold_right (fun pkg rest => (showformat pkg ++ rest)%string) EmptyString pkgs.

(** A field without a blank and without a line feed. *)
Definition plainField (s : string) : bool :=
  negb (hasChar blank s) && negb (hasChar newline s).

Definition plainPkg (pkg : PkgInfo) : bool :=
  plainField (pkgName pkg) && plainField (pkgArch pkg) && plainField (pkgVersion pkg).

(** The arguments [installedPkg] gives to dpkg-query. *)
Definition dpkgQueryArgs : list string :=
  ["--show";
   ("--showformat=${Package} ${Architecture} ${Version}" ++ String newline EmptyString)%string].

(** An object without managers whose cache holds empty answers only. *)
Definition quiet {World : Type} (this : PkgQuery World) : Prop :=
  _pkgManagers this = [] /\
  Forall (fun n => QCache.object n = EmptyString) (QCache.nodes (_cache this)).

(** Among the [j] most recently used entries there is one for [p], with
    the object [v]. *)
Definition within (j : nat) (p v : string) (c : QCache.t) : Prop :=
  exists n : QCache.Node,
    In n (firstn j (QCache.nodes c)) /\ QCache.key n = p /\ QCache.object n = v.

(** ** Reading a trace *)

(** The calls that reach the host. *)
Definition isHostCall (e : Event) : bool :=
  match e with
  | RunCommand _ _ | TryRunCommand _ _ | HaveCommand _ => true
  | Invoke _ _ => false
  end.

Definition isRunCommand (e : Event) : bool :=
  match e with
  | RunCommand _ _ => true
  | _ => false
  end.

Definition hostCalls (events : list Event) : nat :=
  List.length (filter isHostCall events).

(** ** The static functions of PkgQuery

    Each of them goes through [instance()]; the static [_instance] is the
    state that is passed along. *)

Section Process.

Variable World : Type.
Variable sys_runCommand : string -> list string -> World -> (string * Z) * World.
Variable sys_tryRunCommand : string -> string -> World -> bool * World.
Variable sys_haveCommand : string -> World -> bool * World.
Variable rpm_installedPkg : M World PkgInfoList.
Variable rpm_fileList : PkgInfo -> M World (list string).
Variable pacman_installedPkg : M World PkgInfoList.
Variable pacman_fileList : PkgInfo -> M World (list string).
Variable victim : list QCache.Node -> nat.

Definition PkgQuery_instance (_instance : option (PkgQuery World))
  : M World (PkgQuery World) :=
  instance World sys_runCommand sys_tryRunCommand sys_haveCommand
    rpm_installedPkg rpm_fileList pacman_installedPkg pacman_fileList victim
    _instance.

Definition PkgQuery_foundSupportedPkgManager (_instance : option (PkgQuery World))
  : M World (bool * option (PkgQuery World)) :=
  this <- PkgQuery_instance _instance ;;
  ret (foundSupportedPkgManager this, Some this).

Definition PkgQuery_owningPkg (_instance : option (PkgQuery World)) (path : string)
  : M World (string * option (PkgQuery World)) :=
  this <- PkgQuery_instance _instance ;;
  r <- getOwningPackage victim this path ;;
  ret (fst r, Some (snd r)).

Definition PkgQuery_installedPkg (_instance : option (PkgQuery World))
  : M World (PkgInfoList * option (PkgQuery World)) :=
  this <- PkgQuery_instance _instance ;;
  l <- getInstalledPkg this ;;
  ret (l, Some this).

Definition PkgQuery_fileList (_instance : option (PkgQuery World)) (pkg : PkgInfo)
  : M World (list string * option (PkgQuery World)) :=
  this <- PkgQuery_instance _instance ;;
  l <- getFileList this pkg ;;
  ret (l, Some this).

End Process.

Arguments DpkgPkgManager_installedPkg {World} sys_runCommand _.

(** * Properties *)

(** ** Output parsers *)

Lemma parsePkgList_step_spec (pkgList : PkgInfoList) (line : string) :
  parsePkgList_step pkgList line =
  pkgList ++ (if dpkgLineAccepted line then [dpkgLineRecord line] else []).
Proof.
  unfold parsePkgList_step, dpkgLineAccepted, dpkgLineRecord, dpkgLineFields.
  destruct (QString.isEmpty line); simpl.
  - now rewrite app_nil_r.
  - destruct (QString.split blank line) as [|a [|b [|c [|d l]]]]; simpl;
      try now rewrite app_nil_r.
    reflexivity.
Qed.

Lemma parsePkgList_fold (lines : list string) (acc : PkgInfoList) :
  fold_left parsePkgList_step lines acc =
  acc ++ map dpkgLineRecord (filter dpkgLineAccepted lines).
Proof.
  revert acc; induction lines as [|line lines IH]; intros acc; simpl.
  - now rewrite app_nil_r.
  - rewrite IH, parsePkgList_step_spec.
    destruct (dpkgLineAccepted line); simpl.
    + now rewrite <- app_assoc.
    + now rewrite app_nil_r.
Qed.

Lemma split_no_separator (sep : ascii) (s : string) :
  hasChar sep s = false -> QString.split sep s = [s].
Proof.
  induction s as [|c s IH]; simpl; intros H; [reflexivity|].
  apply orb_false_iff in H as [Hc Hs].
  rewrite Hc, (IH Hs). reflexivity.
Qed.

Lemma split_append (sep : ascii) (s rest : string) :
  hasChar sep s = false ->
  QString.split sep (s ++ String sep rest) = s :: QString.split sep rest.
Proof.
  induction s as [|c s IH]; simpl; intros H.
  - now rewrite Ascii.eqb_refl.
  - apply orb_false_iff in H as [Hc Hs].
    rewrite Hc, (IH Hs). reflexivity.
Qed.

(** A line made of three blank-free fields with one blank between them is
    split into these fields. *)
Lemma dpkgLine_wellFormed (name arch version : string) :
  hasChar blank name = false ->
  hasChar blank arch = false ->
  hasChar blank version = false ->
  dpkgLineAccepted (name ++ " " ++ arch ++ " " ++ version)%string = true /\
  dpkgLineRecord (name ++ " " ++ arch ++ " " ++ version)%string =
    mkPkgInfo name version arch.
Proof.
  intros Hn Ha Hv.
  unfold dpkgLineAccepted, dpkgLineRecord, dpkgLineFields.
  change (name ++ " " ++ arch ++ " " ++ version)%string
    with (name ++ String blank (arch ++ String blank version))%string.
  rewrite (split_append blank name _ Hn), (split_append blank arch _ Ha),
    (split_no_separator blank version Hv).
  split; [|reflexivity].
  destruct name; reflexivity.
Qed.

Lemma section_0_0_append (sep : ascii) (s rest : string) :
  hasChar sep s = false ->
  QString.section_0_0 sep (s ++ String sep rest) = s.
Proof.
  induction s as [|c s IH]; simpl; intros H.
  - now rewrite Ascii.eqb_refl.
  - apply orb_false_iff in H as [Hc Hs].
    rewrite Hc, (IH Hs). reflexivity.
Qed.

Lemma afterLast_none_iff (lit s : string) :
  QString.afterLast lit s = None <-> QString.contains s lit = false.
Proof.
  induction s as [|c s IH]; cbn [QString.afterLast QString.contains].
  - destruct (QString.startsWith EmptyString lit); split; congruence.
  - destruct (QString.afterLast lit s) as [r|].
    + split; [discriminate|]. intros H.
      apply orb_false_iff in H as [_ H]. apply IH in H. discriminate.
    + assert (Hs : QString.contains s lit = false) by now apply IH.
      rewrite Hs, orb_false_r.
      destruct (QString.startsWith (String c s) lit); split; congruence.
Qed.

Lemma afterLast_skip (lit pre s r : string) :
  QString.afterLast lit s = Some r ->
  QString.afterLast lit (pre ++ s) = Some r.
Proof.
  intros H. induction pre as [|c pre IH]; simpl; [exact H|].
  now rewrite IH.
Qed.

Lemma contains_ownedBy_tail (rem : string) :
  QString.contains ("s owned by " ++ rem) ownedBy = QString.contains rem ownedBy.
Proof. reflexivity. Qed.

Lemma removeThroughLast_ownedBy (pre rem : string) :
  QString.contains rem ownedBy = false ->
  QString.removeThroughLast ownedBy (pre ++ ownedBy ++ rem) = rem.
Proof.
  intros H. unfold QString.removeThroughLast.
  rewrite (afterLast_skip ownedBy pre (ownedBy ++ rem) rem); [reflexivity|].
  assert (Hn : QString.afterLast ownedBy ("s owned by " ++ rem) = None).
  { apply afterLast_none_iff. now rewrite contains_ownedBy_tail. }
  change (ownedBy ++ rem)%string with (String "i" ("s owned by " ++ rem)).
  cbn [QString.afterLast]. rewrite Hn.
  unfold ownedBy. simpl. destruct rem; reflexivity.
Qed.

(** C8 (as amended): for every input, [parsePkgList] gives one record per
    line that is not empty and that splits at its blanks (each single blank
    ends a field, empty fields are kept) into exactly three fields, taken as
    name, architecture and version, in input order; every other line is
    skipped and the parse goes on.  The listing "pkgA amd64 1.0", "GARBAGE",
    "pkgB amd64 2.0" gives the two records pkgA/amd64/1.0 and
    pkgB/amd64/2.0. *)
Theorem C8_parsePkgList_blank_separated :
  (forall output : string,
      parsePkgList output =
      map dpkgLineRecord
          (filter dpkgLineAccepted (QString.split newline output))) /\
  parsePkgList dpkgListing =
    [mkPkgInfo "pkgA" "1.0" "amd64"; mkPkgInfo "pkgB" "2.0" "amd64"].
Proof.
  split.
  - intros output. unfold parsePkgList. now rewrite parsePkgList_fold.
  - reflexivity.
Qed.

(** C8, as stated, fails: a line with two blanks between its first two
    fields has exactly three white-space-separated fields, and yields no
    record; a line that starts with a blank and has two further fields
    yields a record with an empty name. *)
Lemma C8_counterexample_double_blank :
  whiteSpaceFields "pkgA  amd64 1.0" = ["pkgA"; "amd64"; "1.0"] /\
  parsePkgList "pkgA  amd64 1.0" = [] /\
  parsePkgList_whiteSpace "pkgA  amd64 1.0" = [mkPkgInfo "pkgA" "1.0" "amd64"] /\
  parsePkgList "pkgA  amd64 1.0" <> parsePkgList_whiteSpace "pkgA  amd64 1.0" /\
  whiteSpaceFields " amd64 1.0" = ["amd64"; "1.0"] /\
  parsePkgList " amd64 1.0" = [mkPkgInfo EmptyString "1.0" "amd64"].
Proof.
  repeat split; try reflexivity.
  vm_compute. discriminate.
Qed.

Section OwningPkg.

Variable World : Type.
Variable sys_runCommand : string -> list string -> World -> (string * Z) * World.

Lemma negb_eqb_0 (exitCode : Z) :
  exitCode <> 0%Z -> negb (Z.eqb exitCode 0) = true.
Proof.
  intros H. destruct (Z.eqb_spec exitCode 0); [contradiction|reflexivity].
Qed.

Lemma failed_or_marked (output marker : string) (exitCode : Z) :
  exitCode <> 0%Z \/ QString.contains output marker = true ->
  negb (Z.eqb exitCode 0) || QString.contains output marker = true.
Proof.
  intros [H|H].
  - now rewrite negb_eqb_0.
  - rewrite H. apply orb_true_r.
Qed.

(** C7: each of the three [owningPkg] returns the empty string when the
    command exits with a code other than 0 or when its output contains the
    manager's own marker ("no path found matching pattern", "not owned by
    any package", "No package owns"); it is a total function, so there is
    no other outcome such as an error. *)
Theorem C7_owningPkg_empty_on_failure
    (this : RpmPkgManager) (path : string) (w : World) :
  (forall output exitCode w',
      sys_runCommand "/usr/bin/dpkg" ["-S"; path] w = ((output, exitCode), w') ->
      exitCode <> 0%Z \/
        QString.contains output "no path found matching pattern" = true ->
      value (DpkgPkgManager_owningPkg sys_runCommand path w) = EmptyString) /\
  (forall output exitCode w',
      sys_runCommand (_rpmCommand this)
        ["-qf"; "--queryformat"; "%{NAME}"; path] w = ((output, exitCode), w') ->
      exitCode <> 0%Z \/
        QString.contains output "not owned by any package" = true ->
      value (RpmPkgManager_owningPkg sys_runCommand this path w) = EmptyString) /\
  (forall output exitCode w',
      sys_runCommand "/usr/bin/pacman" ["-Qo"; path] w = ((output, exitCode), w') ->
      exitCode <> 0%Z \/ QString.contains output "No package owns" = true ->
      value (PacManPkgManager_owningPkg sys_runCommand path w) = EmptyString).
Proof.
  repeat split; intros output exitCode w' Hrun Hfail;
    apply failed_or_marked in Hfail.
  - unfold DpkgPkgManager_owningPkg, bind, runCommand.
    rewrite Hrun, Hfail. reflexivity.
  - unfold RpmPkgManager_owningPkg, bind, runCommand.
    rewrite Hrun, Hfail. reflexivity.
  - unfold PacManPkgManager_owningPkg, bind, runCommand.
    rewrite Hrun, Hfail. reflexivity.
Qed.

(** C9 (as amended): when pacman exits with code 0 and its output, free
    of "No package owns", reads [pre ++ "is owned by " ++ pkg ++ " " ++
    rest] with no blank in [pkg] and no further "is owned by " behind it,
    [owningPkg] returns [pkg]: everything through the last "is owned by "
    is removed and the text in front of the first blank is the result.
    The token ends at a blank, not at any other white space. *)
Theorem C9_pacman_owningPkg_blank_delimited
    (path : string) (w w' : World) (pre pkg rest : string) :
  sys_runCommand "/usr/bin/pacman" ["-Qo"; path] w =
    ((pre ++ ownedBy ++ pkg ++ " " ++ rest)%string, 0%Z, w') ->
  QString.contains (pre ++ ownedBy ++ pkg ++ " " ++ rest) "No package owns" = false ->
  hasChar blank pkg = false ->
  QString.contains (pkg ++ " " ++ rest) ownedBy = false ->
  PacManPkgManager_owningPkg sys_runCommand path w =
    (pkg, w', [RunCommand "/usr/bin/pacman" ["-Qo"; path]]).
Proof.
  intros Hrun Hmark Hpkg Hlast.
  unfold PacManPkgManager_owningPkg, bind, runCommand.
  rewrite Hrun, Hmark. cbn [Z.eqb negb orb ret app].
  rewrite (removeThroughLast_ownedBy pre _ Hlast).
  change (pkg ++ " " ++ rest)%string with (pkg ++ String blank rest)%string.
  now rewrite (section_0_0_append blank pkg rest Hpkg).
Qed.

End OwningPkg.

(** C7 at a host where every command prints the dpkg marker and exits
    with code 1. *)
Lemma C7_witness :
  value (DpkgPkgManager_owningPkg
           (Fake.run "dpkg-query: no path found matching pattern /x" 1) "/x" 0%nat) = EmptyString /\
  value (RpmPkgManager_owningPkg
           (Fake.run "dpkg-query: no path found matching pattern /x" 1)
           (mkRpmPkgManager "/bin/rpm") "/x" 0%nat) = EmptyString /\
  value (PacManPkgManager_owningPkg
           (Fake.run "dpkg-query: no path found matching pattern /x" 1) "/x" 0%nat) = EmptyString.
Proof.
  destruct (C7_owningPkg_empty_on_failure Fake.World
              (Fake.run "dpkg-query: no path found matching pattern /x" 1)
              (mkRpmPkgManager "/bin/rpm") "/x" 0%nat) as (D & R & P).
  split; [|split].
  - eapply D; [reflexivity|]. right. reflexivity.
  - eapply R; [reflexivity|]. left. discriminate.
  - eapply P; [reflexivity|]. left. discriminate.
Defined.

(** C9 at the sample output "/usr/bin/pacman is owned by pacman 5.1.1-3". *)
Lemma C9_witness :
  PacManPkgManager_owningPkg (Fake.run pacmanSample 0) "/usr/bin/pacman" 0%nat =
    ("pacman", 1%nat, [RunCommand "/usr/bin/pacman" ["-Qo"; "/usr/bin/pacman"]]).
Proof.
  apply (C9_pacman_owningPkg_blank_delimited Fake.World (Fake.run pacmanSample 0)
           "/usr/bin/pacman" 0%nat 1%nat "/usr/bin/pacman " "pacman" "5.1.1-3");
    reflexivity.
Defined.

(** C9, as stated, fails: when a tab follows the package name, the first
    white-space-delimited token behind the prefix is "b", and [owningPkg]
    returns "b<tab>c". *)
Lemma C9_counterexample_tab :
  value (PacManPkgManager_owningPkg (Fake.run pacmanTabbed 0) "/a" 0%nat) =
    ("b" ++ Fake.tab ++ "c")%string /\
  firstToken (QString.removeThroughLast ownedBy pacmanTabbed) = "b" /\
  value (PacManPkgManager_owningPkg (Fake.run pacmanTabbed 0) "/a" 0%nat) <>
    firstToken (QString.removeThroughLast ownedBy pacmanTabbed).
Proof.
  repeat split; try reflexivity.
  vm_compute. discriminate.
Qed.

(** ** The cache *)

Section CacheFacts.

Variable victim : list QCache.Node -> nat.

Lemma removeAt_length (i : nat) (ns : list QCache.Node) :
  (i < List.length ns)%nat ->
  List.length (QCache.removeAt i ns) = pred (List.length ns).
Proof.
  revert i; induction ns as [|n ns IH]; intros i Hi; simpl in *; [lia|].
  destruct i as [|i]; [reflexivity|].
  simpl. rewrite IH by lia. destruct ns; simpl in *; lia.
Qed.

Lemma removeAt_In (i : nat) (ns : list QCache.Node) (n : QCache.Node) :
  In n (QCache.removeAt i ns) -> In n ns.
Proof.
  revert i; induction ns as [|n0 ns IH]; intros i H; simpl in *; [contradiction|].
  destruct i as [|i]; [now right|].
  destruct H as [H|H]; [now left|right; eauto].
Qed.

Lemma removeAt_keys_In (i : nat) (ns : list QCache.Node) (k : string) :
  In k (map QCache.key (QCache.removeAt i ns)) -> In k (map QCache.key ns).
Proof.
  intros H. apply in_map_iff in H as (n & Hk & Hn).
  apply in_map_iff. exists n. split; [assumption|].
  eapply removeAt_In; eassumption.
Qed.

Lemma removeAt_NoDup (i : nat) (ns : list QCache.Node) :
  NoDup (map QCache.key ns) -> NoDup (map QCache.key (QCache.removeAt i ns)).
Proof.
  revert i; induction ns as [|n ns IH]; intros i H; simpl in *; [assumption|].
  inversion H as [|? ? Hnotin Hnd]; subst.
  destruct i as [|i]; [assumption|].
  simpl. constructor; [|now apply IH].
  intros Hin. apply Hnotin. eapply removeAt_keys_In; eassumption.
Qed.

Lemma evict_length (ns : list QCache.Node) :
  ns <> [] ->
  List.length (QCache.evict victim ns) = pred (List.length ns).
Proof.
  intros H. unfold QCache.evict. apply removeAt_length.
  destruct ns; [congruence|]. simpl. lia.
Qed.

Lemma total_unitCost (ns : list QCache.Node) :
  Forall unitCost ns -> QCache.total ns = Z.of_nat (List.length ns).
Proof.
  induction 1 as [|n ns Hn _ IH]; [reflexivity|].
  cbn [QCache.total fold_right List.length].
  fold (QCache.total ns). rewrite IH, Hn. unfold CACHE_COST. lia.
Qed.

(** Whatever an eviction keeps, a trim keeps. *)
Lemma trim_loop_preserves (P : list QCache.Node -> Prop) :
  (forall ns, P ns -> P (QCache.evict victim ns)) ->
  forall rounds m ns, P ns -> P (QCache.trim_loop victim rounds m ns).
Proof.
  intros Hev. induction rounds as [|rounds IH]; intros m ns HP; simpl;
    [assumption|].
  destruct ns as [|n ns]; [assumption|].
  destruct (QCache.total (n :: ns) >? m)%Z; [|assumption].
  apply IH, Hev, HP.
Qed.

(** The rounds given to [trim] are enough: it ends with an empty cache or
    with a total cost of at most [m]. *)
Lemma trim_loop_done (rounds : nat) (m : Z) :
  forall ns : list QCache.Node,
    (List.length ns <= rounds)%nat ->
    QCache.trim_loop victim rounds m ns = [] \/
    (QCache.total (QCache.trim_loop victim rounds m ns) <= m)%Z.
Proof.
  induction rounds as [|rounds IH]; intros ns Hlen.
  - destruct ns; [now left|simpl in Hlen; lia].
  - cbn [QCache.trim_loop]. destruct ns as [|n ns]; [now left|].
    destruct (Z.gtb_spec (QCache.total (n :: ns)) m) as [Hgt|Hle].
    + apply IH. rewrite evict_length by discriminate.
      cbn [List.length pred] in *. lia.
    + now right.
Qed.

Lemma evict_unitCost (ns : list QCache.Node) :
  Forall unitCost ns -> Forall unitCost (QCache.evict victim ns).
Proof.
  intros H. apply Forall_forall. intros n Hn.
  eapply Forall_forall; [exact H|].
  eapply removeAt_In; exact Hn.
Qed.

Lemma trim_unitCost (m : Z) (ns : list QCache.Node) :
  Forall unitCost ns -> Forall unitCost (QCache.trim victim m ns).
Proof.
  apply (trim_loop_preserves (Forall unitCost)), evict_unitCost.
Qed.

Lemma trim_NoDup (m : Z) (ns : list QCache.Node) :
  NoDup (map QCache.key ns) -> NoDup (map QCache.key (QCache.trim victim m ns)).
Proof.
  apply (trim_loop_preserves (fun l => NoDup (map QCache.key l))).
  intros l. apply removeAt_NoDup.
Qed.

Lemma trim_keys_In (m : Z) (ns : list QCache.Node) (k : string) :
  In k (map QCache.key (QCache.trim victim m ns)) -> In k (map QCache.key ns).
Proof.
  intros H.
  refine (trim_loop_preserves
            (fun l => forall k', In k' (map QCache.key l) -> In k' (map QCache.key ns))
            _ (List.length ns) m ns _ k H).
  - intros l Hl k' Hk'. apply Hl. eapply removeAt_keys_In; exact Hk'.
  - auto.
Qed.

(** With entries of cost 1, a trim to [m] leaves [m] entries, or all of
    them when they are fewer: the loop does not stop early. *)
Lemma trim_loop_length (rounds : nat) (m : Z) (ns : list QCache.Node) :
  Forall unitCost ns ->
  (0 <= m)%Z ->
  (List.length ns <= rounds)%nat ->
  List.length (QCache.trim_loop victim rounds m ns) =
    Nat.min (List.length ns) (Z.to_nat m).
Proof.
  revert ns; induction rounds as [|rounds IH]; intros ns Hu Hm Hr.
  - destruct ns; simpl in *; [reflexivity|lia].
  - simpl. destruct ns as [|n ns]; [reflexivity|].
    rewrite (total_unitCost _ Hu).
    destruct (Z.gtb_spec (Z.of_nat (List.length (n :: ns))) m) as [Hgt|Hle].
    + rewrite IH.
      * rewrite evict_length by discriminate. cbn [List.length pred] in *. lia.
      * now apply evict_unitCost.
      * assumption.
      * rewrite evict_length by discriminate. cbn [List.length pred] in *. lia.
    + cbn [List.length pred] in *. lia.
Qed.

Lemma trim_length (m : Z) (ns : list QCache.Node) :
  Forall unitCost ns ->
  (0 <= m)%Z ->
  List.length (QCache.trim victim m ns) = Nat.min (List.length ns) (Z.to_nat m).
Proof.
  intros Hu Hm. unfold QCache.trim. now apply trim_loop_length.
Qed.

Lemma removeKey_absent (k : string) (ns : list QCache.Node) :
  ~ In k (map QCache.key ns) -> QCache.removeKey k ns = ns.
Proof.
  induction ns as [|n ns IH]; intros H; simpl in *; [reflexivity|].
  destruct (String.eqb_spec (QCache.key n) k) as [E|E]; simpl.
  - exfalso. apply H. now left.
  - rewrite IH; [reflexivity|]. intros Hin. apply H. now right.
Qed.

Lemma removeKey_In (k : string) (ns : list QCache.Node) (n : QCache.Node) :
  In n (QCache.removeKey k ns) -> In n ns /\ QCache.key n <> k.
Proof.
  unfold QCache.removeKey. intros H. apply filter_In in H as [Hin Hk].
  split; [assumption|].
  destruct (String.eqb_spec (QCache.key n) k); [discriminate|assumption].
Qed.

Lemma removeKey_keys_In (k k' : string) (ns : list QCache.Node) :
  In k' (map QCache.key (QCache.removeKey k ns)) ->
  In k' (map QCache.key ns) /\ k' <> k.
Proof.
  intros H. apply in_map_iff in H as (n & Hk & Hn).
  apply removeKey_In in Hn as [Hin Hne]. subst k'.
  split; [|assumption]. apply in_map_iff. now exists n.
Qed.

Lemma removeKey_NoDup (k : string) (ns : list QCache.Node) :
  NoDup (map QCache.key ns) -> NoDup (map QCache.key (QCache.removeKey k ns)).
Proof.
  induction ns as [|n ns IH]; intros H; simpl in *; [assumption|].
  inversion H as [|? ? Hnotin Hnd]; subst.
  destruct (negb (QCache.key n =? k)); [|now apply IH].
  simpl. constructor; [|now apply IH].
  intros Hin. apply Hnotin. now apply removeKey_keys_In in Hin.
Qed.

Lemma removeKey_unitCost (k : string) (ns : list QCache.Node) :
  Forall unitCost ns -> Forall unitCost (QCache.removeKey k ns).
Proof.
  intros H. apply Forall_forall. intros n Hn.
  apply removeKey_In in Hn as [Hn _].
  eapply Forall_forall; eassumption.
Qed.

Lemma removeKey_length (k : string) (ns : list QCache.Node) :
  (List.length (QCache.removeKey k ns) <= List.length ns)%nat.
Proof. apply filter_length_le. Qed.

Lemma contains_In (c : QCache.t) (k : string) :
  QCache.contains c k = true <-> In k (QCache.keys c).
Proof.
  unfold QCache.contains, QCache.keys. rewrite existsb_exists. split.
  - intros (n & Hn & Hk). apply String.eqb_eq in Hk. subst k.
    now apply in_map.
  - intros H. apply in_map_iff in H as (n & Hk & Hn).
    exists n. split; [assumption|]. now apply String.eqb_eq.
Qed.

Lemma contains_false_not_In (c : QCache.t) (k : string) :
  QCache.contains c k = false <-> ~ In k (QCache.keys c).
Proof.
  rewrite <- contains_In. destruct (QCache.contains c k); split; congruence.
Qed.

End CacheFacts.

(** ** getOwningPackage and the cache *)

Section QueryFacts.

Variable World : Type.
Variable victim : list QCache.Node -> nat.

Lemma getOwningPackage_hit (this : PkgQuery World) (path : string) (w : World) :
  QCache.contains (_cache this) path = true ->
  getOwningPackage victim this path w =
    ((match fst (QCache.lookup (_cache this) path) with
      | Some p => p
      | None => EmptyString
      end,
      mkPkgQuery (snd (QCache.lookup (_cache this) path))
                 (_pkgManagers this) (_secondaryPkgManagers this)),
     w, []).
Proof.
  intros H. unfold getOwningPackage. rewrite H.
  destruct (QCache.lookup (_cache this) path). reflexivity.
Qed.

Lemma getOwningPackage_miss (this : PkgQuery World) (path : string) (w : World) :
  QCache.contains (_cache this) path = false ->
  getOwningPackage victim this path w =
    let r := getOwningPackage_loop (_pkgManagers this) path EmptyString w in
    ((value r,
      mkPkgQuery (snd (QCache.insert victim (_cache this) path (value r) CACHE_COST))
                 (_pkgManagers this) (_secondaryPkgManagers this)),
     world r, trace r).
Proof.
  intros H. unfold getOwningPackage, bind. rewrite H.
  destruct (getOwningPackage_loop (_pkgManagers this) path EmptyString w) as [[pkg w1] e1].
  cbn [value world trace fst snd].
  destruct (QCache.insert victim (_cache this) path pkg CACHE_COST).
  cbn [ret snd]. now rewrite app_nil_r.
Qed.

Lemma find_key_In (k : string) (ns : list QCache.Node) (n : QCache.Node) :
  find (fun n' => String.eqb (QCache.key n') k) ns = Some n ->
  In n ns /\ QCache.key n = k.
Proof.
  intros H. apply find_some in H as [Hin Hk].
  split; [assumption|]. now apply String.eqb_eq.
Qed.

Lemma removeKey_shorter (k : string) (ns : list QCache.Node) (n : QCache.Node) :
  In n ns -> QCache.key n = k ->
  (S (List.length (QCache.removeKey k ns)) <= List.length ns)%nat.
Proof.
  induction ns as [|n0 ns IH]; intros Hin Hk; simpl in *; [contradiction|].
  destruct Hin as [E|Hin].
  - subst n0. rewrite Hk, String.eqb_refl. simpl.
    pose proof (removeKey_length k ns). lia.
  - specialize (IH Hin Hk).
    destruct (negb (QCache.key n0 =? k)); simpl; lia.
Qed.

Lemma removeKey_not_In (k : string) (ns : list QCache.Node) :
  ~ In k (map QCache.key (QCache.removeKey k ns)).
Proof.
  intros H. apply removeKey_keys_In in H as [_ H]. now apply H.
Qed.

(** A hit keeps the invariant of the cache and its keys. *)
Lemma lookup_cacheInv (c : QCache.t) (k : string) :
  cacheInv c -> cacheInv (snd (QCache.lookup c k)).
Proof.
  intros (Hmx & Hu & Hnd & Hcnt). unfold QCache.lookup.
  destruct (find _ (QCache.nodes c)) as [n|] eqn:Hfind;
    [|repeat split; assumption].
  apply find_key_In in Hfind as [Hin Hk].
  unfold cacheInv, QCache.keys, QCache.count in *. cbn [snd QCache.nodes QCache.mx].
  repeat split.
  - assumption.
  - constructor.
    + eapply Forall_forall; eassumption.
    + now apply removeKey_unitCost.
  - cbn [map]. constructor.
    + rewrite Hk. apply removeKey_not_In.
    + now apply removeKey_NoDup.
  - cbn [List.length]. pose proof (removeKey_shorter k _ n Hin Hk). lia.
Qed.

Lemma lookup_keys_In (c : QCache.t) (k k' : string) :
  In k' (QCache.keys (snd (QCache.lookup c k))) -> In k' (QCache.keys c).
Proof.
  unfold QCache.lookup, QCache.keys.
  destruct (find _ (QCache.nodes c)) as [n|] eqn:Hfind; [|auto].
  apply find_key_In in Hfind as [Hin Hk].
  cbn [snd QCache.nodes map]. intros [E|H].
  - subst k'. now apply in_map.
  - now apply removeKey_keys_In in H.
Qed.

Lemma insert_nodes (c : QCache.t) (k v : string) :
  (CACHE_COST <= QCache.mx c)%Z ->
  QCache.insert victim c k v CACHE_COST =
    (true,
     QCache.mk (QCache.mkNode k v CACHE_COST ::
                QCache.trim victim (QCache.mx c - CACHE_COST)
                  (QCache.removeKey k (QCache.nodes c)))
               (QCache.mx c)).
Proof.
  intros H. unfold QCache.insert.
  destruct (Z.gtb_spec CACHE_COST (QCache.mx c)); [lia|reflexivity].
Qed.

(** An insertion keeps the invariant; the cache holds one entry more, or
    500 when it was full. *)
Lemma insert_cacheInv (c : QCache.t) (k v : string) :
  cacheInv c ->
  cacheInv (snd (QCache.insert victim c k v CACHE_COST)) /\
  (~ In k (QCache.keys c) ->
   QCache.count (snd (QCache.insert victim c k v CACHE_COST)) =
     Nat.min (S (QCache.count c)) 500).
Proof.
  intros (Hmx & Hu & Hnd & Hcnt).
  rewrite insert_nodes by (rewrite Hmx; unfold CACHE_COST, CACHE_SIZE; lia).
  unfold cacheInv, QCache.keys, QCache.count in *.
  cbn [snd QCache.nodes QCache.mx map List.length].
  assert (Hlen : forall ns, Forall unitCost ns ->
            List.length (QCache.trim victim (QCache.mx c - CACHE_COST) ns) =
              Nat.min (List.length ns) 499).
  { intros ns Hns. rewrite trim_length; [|assumption|].
    - rewrite Hmx. reflexivity.
    - rewrite Hmx. unfold CACHE_COST, CACHE_SIZE. lia. }
  repeat split.
  - assumption.
  - constructor; [reflexivity|].
    now apply trim_unitCost, removeKey_unitCost.
  - constructor.
    + intros Hin. apply trim_keys_In in Hin. now apply removeKey_not_In in Hin.
    + now apply trim_NoDup, removeKey_NoDup.
  - rewrite Hlen by now apply removeKey_unitCost. lia.
  - intros Hnotin. rewrite removeKey_absent by assumption.
    rewrite Hlen by assumption. lia.
Qed.

Lemma insert_keys_In (c : QCache.t) (k v k' : string) :
  (CACHE_COST <= QCache.mx c)%Z ->
  In k' (QCache.keys (snd (QCache.insert victim c k v CACHE_COST))) ->
  k' = k \/ In k' (QCache.keys c).
Proof.
  intros Hmx. rewrite insert_nodes by assumption.
  unfold QCache.keys. cbn [snd QCache.nodes map]. intros [E|H].
  - now left.
  - right. apply trim_keys_In in H. now apply removeKey_keys_In in H.
Qed.

(** Every call keeps the invariant of the cache. *)
Lemma getOwningPackage_cacheInv (this : PkgQuery World) (path : string) (w : World) :
  cacheInv (_cache this) ->
  cacheInv (_cache (snd (value (getOwningPackage victim this path w)))).
Proof.
  intros Hinv.
  destruct (QCache.contains (_cache this) path) eqn:Hc.
  - rewrite getOwningPackage_hit by assumption. now apply lookup_cacheInv.
  - rewrite getOwningPackage_miss by assumption. now apply insert_cacheInv.
Qed.

(** A run of calls for distinct paths that are not in the cache. *)
Lemma getOwningPackages_count (paths : list string) :
  forall (this : PkgQuery World) (w : World),
    cacheInv (_cache this) ->
    NoDup paths ->
    (forall p, In p paths -> ~ In p (QCache.keys (_cache this))) ->
    let this' := value (getOwningPackages victim this paths w) in
    cacheInv (_cache this') /\
    QCache.count (_cache this') =
      Nat.min (QCache.count (_cache this) + List.length paths) 500.
Proof.
  induction paths as [|path paths IH]; intros this w Hinv Hnd Hnew.
  - cbn. split; [assumption|].
    destruct Hinv as (_ & _ & _ & Hcnt). rewrite Nat.add_0_r. lia.
  - cbn [getOwningPackages]. unfold bind.
    assert (Hmiss : QCache.contains (_cache this) path = false).
    { apply contains_false_not_In. apply Hnew. now left. }
    pose proof (getOwningPackage_miss this path w Hmiss) as Hcall.
    destruct (getOwningPackage victim this path w) as [[[pkg this1] w1] e1].
    cbv zeta in Hcall. injection Hcall as Hpkg Hthis1 Hw1 He1.
    destruct (insert_cacheInv (_cache this) path pkg Hinv) as [Hinv1 Hcnt1].
    inversion Hnd as [|? ? Hnotin Hnd']; subst x l.
    assert (E1 : _cache this1 =
                 snd (QCache.insert victim (_cache this) path pkg CACHE_COST)).
    { rewrite Hthis1, Hpkg. reflexivity. }
    specialize (IH this1 w1). cbn [snd].
    destruct (getOwningPackages victim this1 paths w1) as [[this2 w2] e2] eqn:Hrest.
    cbn [value fst snd] in *.
    destruct IH as [Hinv2 Hcnt2].
    + now rewrite E1.
    + assumption.
    + intros p Hp Hin. rewrite E1 in Hin.
      apply insert_keys_In in Hin.
      * destruct Hin as [E|Hin]; [subst p; contradiction|].
        apply (Hnew p); [now right|assumption].
      * destruct Hinv as (Hmx & _). rewrite Hmx.
        unfold CACHE_COST, CACHE_SIZE. lia.
    + split; [assumption|].
      rewrite Hcnt2, E1, Hcnt1 by (apply Hnew; now left).
      cbn [List.length]. lia.
Qed.

End QueryFacts.

Section CachedAnswers.

Variable World : Type.
Variable victim : list QCache.Node -> nat.

Lemma peek_contains (c : QCache.t) (k v : string) :
  QCache.peek c k = Some v -> QCache.contains c k = true.
Proof.
  unfold QCache.peek, QCache.contains.
  destruct (find _ (QCache.nodes c)) as [n|] eqn:Hfind; [|discriminate].
  intros _. apply find_some in Hfind as [Hin Hk].
  apply existsb_exists. now exists n.
Qed.

Lemma lookup_peek (c : QCache.t) (k : string) :
  fst (QCache.lookup c k) = QCache.peek c k /\
  QCache.peek (snd (QCache.lookup c k)) k = QCache.peek c k.
Proof.
  unfold QCache.lookup, QCache.peek.
  destruct (find _ (QCache.nodes c)) as [n|] eqn:Hfind.
  - split; [reflexivity|].
    apply find_some in Hfind as [_ Hk].
    cbn [snd QCache.nodes find]. now rewrite Hk.
  - split; [reflexivity|]. cbn [snd]. now rewrite Hfind.
Qed.

Lemma insert_peek (c : QCache.t) (k v : string) :
  (CACHE_COST <= QCache.mx c)%Z ->
  QCache.peek (snd (QCache.insert victim c k v CACHE_COST)) k = Some v.
Proof.
  intros H. rewrite insert_nodes by assumption.
  unfold QCache.peek. cbn [snd QCache.nodes find QCache.key].
  now rewrite String.eqb_refl.
Qed.

(** A path that is in the cache is answered from the cache: no manager is
    invoked, no command is run. *)
Lemma getOwningPackage_resident
    (this : PkgQuery World) (path pkg : string) (w : World) :
  QCache.peek (_cache this) path = Some pkg ->
  fst (value (getOwningPackage victim this path w)) = pkg /\
  world (getOwningPackage victim this path w) = w /\
  trace (getOwningPackage victim this path w) = [] /\
  QCache.peek (_cache (snd (value (getOwningPackage victim this path w)))) path =
    Some pkg.
Proof.
  intros Hpeek.
  rewrite getOwningPackage_hit by (eapply peek_contains; eassumption).
  destruct (lookup_peek (_cache this) path) as [Hfst Hsnd].
  cbn [value world trace fst snd _cache].
  rewrite Hfst, Hsnd, Hpeek. repeat split; reflexivity.
Qed.

(** Whatever a call returns is in the cache afterwards. *)
Lemma getOwningPackage_caches (this : PkgQuery World) (path : string) (w : World) :
  (CACHE_COST <= QCache.mx (_cache this))%Z ->
  QCache.peek (_cache (snd (value (getOwningPackage victim this path w)))) path =
    Some (fst (value (getOwningPackage victim this path w))).
Proof.
  intros Hmx.
  destruct (QCache.contains (_cache this) path) eqn:Hc.
  - destruct (QCache.peek (_cache this) path) as [pkg|] eqn:Hpeek.
    + destruct (getOwningPackage_resident this path pkg w Hpeek) as (E & _ & _ & P).
      now rewrite P, E.
    + exfalso. unfold QCache.peek, QCache.contains in *.
      destruct (find _ (QCache.nodes (_cache this))) eqn:Hfind; [discriminate|].
      apply existsb_exists in Hc as (n & Hin & Hk).
      eapply find_none in Hfind; [|exact Hin]. cbv beta in Hfind. congruence.
  - rewrite getOwningPackage_miss by assumption.
    cbn [value fst snd _cache]. now apply insert_peek.
Qed.

(** C1 (as amended): a call for a path is answered from the cache, with
    no manager invoked and no command run, whenever the path is in the
    cache; every call leaves its path and its answer in the cache, so of
    two consecutive calls for one path the second returns what the first
    returned and invokes no manager.  (The cache holds 500 entries: a path
    that has been evicted is asked of the managers again.) *)
Theorem C1_answered_from_cache_while_resident
    (this : PkgQuery World) (path : string) (w : World) :
  (CACHE_COST <= QCache.mx (_cache this))%Z ->
  let first := getOwningPackage victim this path w in
  QCache.peek (_cache (snd (value first))) path = Some (fst (value first)) /\
  (forall w2 : World,
      let second := getOwningPackage victim (snd (value first)) path w2 in
      fst (value second) = fst (value first) /\
      world second = w2 /\
      trace second = []) /\
  (forall pkg : string,
      QCache.peek (_cache this) path = Some pkg ->
      fst (value first) = pkg /\ world first = w /\ trace first = []).
Proof.
  intros Hmx first.
  pose proof (getOwningPackage_caches this path w Hmx) as Hcached.
  fold first in Hcached.
  split; [assumption|split].
  - intros w2 second.
    destruct (getOwningPackage_resident (snd (value first)) path
                (fst (value first)) w2 Hcached) as (E & Wd & Tr & _).
    now repeat split.
  - intros pkg Hpeek.
    destruct (getOwningPackage_resident this path pkg w Hpeek) as (E & Wd & Tr & _).
    now repeat split.
Qed.

End CachedAnswers.

(** C1 at a query object with one manager and an empty cache. *)
Lemma C1_witness :
  let first := getOwningPackage QCache.lru fakeQuery "/x" 0%nat in
  QCache.peek (_cache (snd (value first))) "/x" = Some (fst (value first)) /\
  (forall w2 : Fake.World,
      let second := getOwningPackage QCache.lru (snd (value first)) "/x" w2 in
      fst (value second) = fst (value first) /\
      world second = w2 /\
      trace second = []) /\
  (forall pkg : string,
      QCache.peek (_cache fakeQuery) "/x" = Some pkg ->
      fst (value first) = pkg /\ world first = 0%nat /\ trace first = []).
Proof.
  apply (C1_answered_from_cache_while_resident Fake.World QCache.lru fakeQuery "/x" 0%nat).
  vm_compute. discriminate.
Defined.

(** C1, as stated, fails: with Qt's least-recently-used eviction, a path
    that was asked once and then followed by 500 other paths is no longer in
    the cache, and the next call for it invokes the manager again. *)
Lemma C1_counterexample_evicted :
  let this := value (getOwningPackages QCache.lru fakeQuery ("/x" :: Fake.paths 500) 0%nat) in
  trace (getOwningPackage QCache.lru fakeQuery "/x" 0%nat) =
    [Invoke "fake" (OwningPkg "/x")] /\
  QCache.contains (_cache this) "/x" = false /\
  trace (getOwningPackage QCache.lru this "/x" 501%nat) =
    [Invoke "fake" (OwningPkg "/x")] /\
  trace (getOwningPackage QCache.lru this "/x" 501%nat) <> [].
Proof.
  vm_compute. repeat split. discriminate.
Qed.

(** ** The registry *)

Lemma nodupb_sound (l : list string) : nodupb l = true -> NoDup l.
Proof.
  induction l as [|x r IH]; simpl; intros H; [constructor|].
  apply andb_true_iff in H as [Hx Hr].
  constructor; [|now apply IH].
  intros Hin. apply negb_true_iff in Hx.
  assert (existsb (String.eqb x) r = true); [|congruence].
  apply existsb_exists. exists x. split; [assumption|apply String.eqb_refl].
Qed.

Section Registry.

Variable World : Type.
Variable sys_runCommand : string -> list string -> World -> (string * Z) * World.
Variable sys_tryRunCommand : string -> string -> World -> bool * World.
Variable sys_haveCommand : string -> World -> bool * World.
Variable rpm_installedPkg : M World PkgInfoList.
Variable rpm_fileList : PkgInfo -> M World (list string).
Variable pacman_installedPkg : M World PkgInfoList.
Variable pacman_fileList : PkgInfo -> M World (list string).
Variable victim : list QCache.Node -> nat.

Local Abbreviation newPkgQuery :=
  (PkgQuery_new World sys_runCommand sys_tryRunCommand sys_haveCommand
     rpm_installedPkg rpm_fileList pacman_installedPkg pacman_fileList victim).
Local Abbreviation probes :=
  (probeAll World sys_runCommand sys_tryRunCommand sys_haveCommand
     rpm_installedPkg rpm_fileList pacman_installedPkg pacman_fileList).
Local Abbreviation dpkg :=
  (DpkgPkgManager World sys_runCommand sys_tryRunCommand sys_haveCommand).
Local Abbreviation pacman :=
  (PacManPkgManager World sys_runCommand sys_tryRunCommand sys_haveCommand
     pacman_installedPkg pacman_fileList).
Local Abbreviation rpmOf :=
  (RpmPkgManager_upcast World sys_runCommand sys_tryRunCommand sys_haveCommand
     rpm_installedPkg rpm_fileList).

(** What [checkPkgManager] does with a manager is decided by its class. *)
Lemma checkPkgManager_classify
    (this : PkgQuery World) (pm : PkgManager World) (w : World) :
  checkPkgManager World this pm w =
    (match value (classify pm w) with
     | Primary =>
         mkPkgQuery (_cache this) (_pkgManagers this ++ [pm])
                    (_secondaryPkgManagers this)
     | Secondary =>
         mkPkgQuery (_cache this) (_pkgManagers this)
                    (_secondaryPkgManagers this ++ [pm])
     | Absent => this
     end,
     world (classify pm w), trace (classify pm w)).
Proof.
  unfold checkPkgManager, classify, bind.
  destruct (invoke pm IsPrimaryPkgManager (isPrimaryPkgManager pm) w)
    as [[[|] w1] e1]; [reflexivity|].
  destruct (invoke pm IsAvailable (isAvailable pm) w1) as [[[|] w2] e2];
    reflexivity.
Qed.

(** The constructor leaves the managers that the probes found primary,
    then those they found secondary, and an empty cache of capacity 500. *)
Lemma PkgQuery_new_probes (w : World) :
  newPkgQuery w =
    (mkPkgQuery (QCache.mk [] CACHE_SIZE)
                (classified Primary (value (probes w)) ++
                 classified Secondary (value (probes w)))
                [],
     world (probes w), trace (probes w)).
Proof.
  unfold PkgQuery_new, checkPkgManagers, probeAll, bind.
  rewrite checkPkgManager_classify.
  destruct (classify dpkg w) as [[c1 w1] e1].
  cbn [value world trace fst snd].
  destruct (RpmPkgManager_new sys_haveCommand w1) as [[rpm w2] e2].
  rewrite checkPkgManager_classify.
  destruct (classify (rpmOf rpm) w2) as [[c2 w3] e3].
  cbn [value world trace fst snd].
  rewrite checkPkgManager_classify.
  destruct (classify pacman w3) as [[c3 w4] e4].
  cbn [value world trace fst snd ret].
  destruct c1, c2, c3; reflexivity.
Qed.

Lemma probes_shape (w : World) :
  exists rpm c1 c2 c3,
    value (probes w) = [(dpkg, c1); (rpmOf rpm, c2); (pacman, c3)].
Proof.
  unfold probeAll, bind.
  destruct (classify dpkg w) as [[c1 w1] e1].
  destruct (RpmPkgManager_new sys_haveCommand w1) as [[rpm w2] e2].
  destruct (classify (rpmOf rpm) w2) as [[c2 w3] e3].
  destruct (classify pacman w3) as [[c3 w4] e4].
  exists rpm, c1, c2, c3. reflexivity.
Qed.

(** C3: the registry build leaves, in this order, the managers classified
    primary and then those classified secondary, each group in the probe
    order dpkg, rpm, pacman (it is what remains of the probe-ordered list
    when the other classes are left out); a manager that is neither
    primary nor available is in neither group and so not in the list. *)
Theorem C3_primary_before_secondary (w : World) :
  _pkgManagers (value (newPkgQuery w)) =
    classified Primary (value (probes w)) ++
    classified Secondary (value (probes w)) /\
  _secondaryPkgManagers (value (newPkgQuery w)) = [] /\
  map name (map fst (value (probes w))) = ["dpkg"; "rpm"; "pacman"] /\
  (forall pm : PkgManager World,
      In (pm, Absent) (value (probes w)) ->
      ~ In (name pm) (map name (_pkgManagers (value (newPkgQuery w))))).
Proof.
  rewrite PkgQuery_new_probes. cbn [value fst _pkgManagers _secondaryPkgManagers].
  destruct (probes_shape w) as (rpm & c1 & c2 & c3 & Hshape).
  rewrite Hshape.
  split; [reflexivity|split; [reflexivity|split; [reflexivity|]]].
  intros pm Hin.
  destruct Hin as [E|[E|[E|[]]]]; injection E as Epm Ec; subst pm;
    destruct c1, c2, c3; try discriminate;
    cbn; intuition discriminate.
Qed.

Lemma getOwningPackages_cacheInv (paths : list string) :
  forall (this : PkgQuery World) (w : World),
    cacheInv (_cache this) ->
    cacheInv (_cache (value (getOwningPackages victim this paths w))).
Proof.
  induction paths as [|path paths IH]; intros this w Hinv; [exact Hinv|].
  cbn [getOwningPackages]. unfold bind.
  pose proof (getOwningPackage_cacheInv World victim this path w Hinv) as H1.
  destruct (getOwningPackage victim this path w) as [[[pkg this1] w1] e1].
  cbn [value fst snd] in *.
  specialize (IH this1 w1 H1).
  destruct (getOwningPackages victim this1 paths w1) as [[this2 w2] e2].
  exact IH.
Qed.

Lemma newPkgQuery_cacheInv (w : World) :
  cacheInv (_cache (value (newPkgQuery w))) /\
  QCache.count (_cache (value (newPkgQuery w))) = 0%nat /\
  QCache.keys (_cache (value (newPkgQuery w))) = [].
Proof.
  rewrite PkgQuery_new_probes. cbn [value fst _cache].
  repeat split; try constructor. cbn. lia.
Qed.

(** C4: the cache of a [PkgQuery] holds at most 500 entries, under
    distinct keys, after any run of [getOwningPackage] calls; after calls
    for 600 distinct paths it holds exactly 500, and after each of the
    first [k] of them at most 500, whichever entry an eviction takes. *)
Theorem C4_cache_holds_at_most_500
    (w0 w : World) (paths : list string) :
  NoDup paths ->
  List.length paths = 600%nat ->
  let this := value (newPkgQuery w0) in
  QCache.count (_cache (value (getOwningPackages victim this paths w))) = 500%nat /\
  (forall k : nat,
      QCache.count
        (_cache (value (getOwningPackages victim this (firstn k paths) w))) <= 500 /\
      NoDup
        (QCache.keys
           (_cache (value (getOwningPackages victim this (firstn k paths) w))))).
Proof.
  intros Hnd Hlen this.
  destruct (newPkgQuery_cacheInv w0) as (Hinv & Hcount & Hkeys).
  fold this in Hinv, Hcount, Hkeys.
  split.
  - destruct (getOwningPackages_count World victim paths this w Hinv Hnd) as [_ Hc].
    + intros p _. rewrite Hkeys. auto.
    + rewrite Hc, Hcount, Hlen. reflexivity.
  - intros k.
    pose proof (getOwningPackages_cacheInv (firstn k paths) this w Hinv)
      as (_ & _ & Hnodup & Hle).
    split; assumption.
Qed.

(** C10: the constructor of [RpmPkgManager] sets the command to
    "/usr/bin/rpm" when the host has that command at that time and to
    "/bin/rpm" otherwise, never to the empty string; whatever the host
    looks like later, each of [isPrimaryPkgManager], [isAvailable] and
    [owningPkg] makes exactly one call to the host, with this command, and
    returns that call's answer. *)
Theorem C10_rpmCommand_resolved_once (w0 : World) :
  let rpm := value (RpmPkgManager_new sys_haveCommand w0) in
  let resolved :=
    if fst (sys_haveCommand "/usr/bin/rpm" w0) then "/usr/bin/rpm" else "/bin/rpm" in
  _rpmCommand rpm = resolved /\
  _rpmCommand rpm <> EmptyString /\
  (forall (w : World) (path : string),
      trace (RpmPkgManager_isPrimaryPkgManager sys_tryRunCommand rpm w) =
        [TryRunCommand (resolved ++ " -qf " ++ resolved) "^rpm.*"] /\
      value (RpmPkgManager_isPrimaryPkgManager sys_tryRunCommand rpm w) =
        fst (sys_tryRunCommand (resolved ++ " -qf " ++ resolved) "^rpm.*" w) /\
      trace (RpmPkgManager_isAvailable sys_haveCommand rpm w) =
        [HaveCommand resolved] /\
      value (RpmPkgManager_isAvailable sys_haveCommand rpm w) =
        fst (sys_haveCommand resolved w) /\
      trace (RpmPkgManager_owningPkg sys_runCommand rpm path w) =
        [RunCommand resolved ["-qf"; "--queryformat"; "%{NAME}"; path]]).
Proof.
  intros rpm resolved.
  assert (Hcmd : _rpmCommand rpm = resolved).
  { subst rpm resolved. unfold RpmPkgManager_new, bind, haveCommand.
    destruct (sys_haveCommand "/usr/bin/rpm" w0) as [[|] w1]; reflexivity. }
  split; [exact Hcmd|split].
  - rewrite Hcmd. subst resolved.
    destruct (fst (sys_haveCommand "/usr/bin/rpm" w0)); discriminate.
  - intros w path.
    unfold RpmPkgManager_isPrimaryPkgManager, RpmPkgManager_isAvailable,
      RpmPkgManager_owningPkg, rpmSelfQuery, bind, tryRunCommand, haveCommand,
      runCommand.
    rewrite Hcmd.
    destruct (sys_tryRunCommand (resolved ++ " -qf " ++ resolved) "^rpm.*" w)
      as [b1 w1].
    destruct (sys_haveCommand resolved w) as [b2 w2].
    destruct (sys_runCommand resolved ["-qf"; "--queryformat"; "%{NAME}"; path] w)
      as [[output exitCode] w3].
    repeat split.
    destruct (negb (exitCode =? 0)%Z || QString.contains output "not owned by any package");
      reflexivity.
Qed.

End Registry.

(** ** Dispatch over the managers *)

Section Dispatch.

Variable World : Type.
Variable victim : list QCache.Node -> nat.

Lemma isEmpty_iff (s : string) : QString.isEmpty s = true <-> s = EmptyString.
Proof. destruct s; split; intros H; try reflexivity; discriminate. Qed.

(** The loop stops at the first manager whose answer is not empty. *)
Lemma getOwningPackage_loop_found (path : string) (pre : list (PkgManager World)) :
  forall (pm : PkgManager World) (post : list (PkgManager World))
         (pkg0 : string) (w w1 w2 : World) (e1 e2 : list Event)
         (answers : list string) (pkg : string),
    askAll (askOwningPkg path) pre w = (answers, w1, e1) ->
    Forall (fun a => a = EmptyString) answers ->
    askOwningPkg path pm w1 = (pkg, w2, e2) ->
    pkg <> EmptyString ->
    getOwningPackage_loop (pre ++ pm :: post) path pkg0 w = (pkg, w2, e1 ++ e2).
Proof.
  induction pre as [|p pre IH];
    intros pm post pkg0 w w1 w2 e1 e2 answers pkg Hpre Hall Hpm Hpkg.
  - cbn in Hpre. injection Hpre as _ Hw He. subst w1 e1.
    cbn [app getOwningPackage_loop]. unfold bind.
    unfold askOwningPkg in Hpm. rewrite Hpm.
    destruct pkg as [|c pkg]; [congruence|].
    cbn. now rewrite app_nil_r.
  - cbn [askAll] in Hpre. unfold bind in Hpre.
    cbn [app getOwningPackage_loop]. unfold bind.
    unfold askOwningPkg at 1 in Hpre.
    destruct (invoke p (OwningPkg path) (owningPkg p path) w) as [[a wa] ea].
    destruct (askAll (askOwningPkg path) pre wa) as [[rest wb] eb] eqn:Hrest.
    cbn in Hpre. injection Hpre as Hans Hw He. subst answers w1 e1.
    inversion Hall as [|? ? Ha Hall']; subst.
    cbn [QString.isEmpty negb].
    rewrite (IH pm post EmptyString wa wb w2 eb e2 rest pkg Hrest Hall' Hpm Hpkg).
    now rewrite app_nil_r, app_assoc.
Qed.

(** When every manager answers with the empty string, the loop asks all
    of them and ends with the empty string. *)
Lemma getOwningPackage_loop_none (path : string) (pms : list (PkgManager World)) :
  forall (w w1 : World) (e1 : list Event) (answers : list string),
    askAll (askOwningPkg path) pms w = (answers, w1, e1) ->
    Forall (fun a => a = EmptyString) answers ->
    getOwningPackage_loop pms path EmptyString w = (EmptyString, w1, e1).
Proof.
  induction pms as [|p pms IH]; intros w w1 e1 answers Hall Hempty.
  - cbn in Hall. injection Hall as _ Hw He. now subst.
  - cbn [askAll] in Hall. unfold bind in Hall.
    cbn [getOwningPackage_loop]. unfold bind.
    unfold askOwningPkg at 1 in Hall.
    destruct (invoke p (OwningPkg path) (owningPkg p path) w) as [[a wa] ea].
    destruct (askAll (askOwningPkg path) pms wa) as [[rest wb] eb] eqn:Hrest.
    cbn in Hall. injection Hall as Hans Hw He. subst answers w1 e1.
    inversion Hempty as [|? ? Ha Hempty']; subst.
    cbn [QString.isEmpty negb].
    rewrite (IH wa wb eb rest Hrest Hempty').
    now rewrite app_nil_r.
Qed.

(** C2: on a cache miss the managers are asked in the order of the list;
    when the managers in front of [pm] answer with the empty string and
    [pm] answers [pkg], not empty, the call returns [pkg], has asked
    exactly these managers (none behind [pm]), and has put [pkg] into the
    cache under the path; when all of them answer with the empty string,
    the call returns the empty string and has put that into the cache. *)
Theorem C2_first_answer_wins
    (this : PkgQuery World) (path : string) (w : World) :
  QCache.contains (_cache this) path = false ->
  (CACHE_COST <= QCache.mx (_cache this))%Z ->
  (forall (pre : list (PkgManager World)) (pm : PkgManager World)
          (post : list (PkgManager World))
          (answers : list string) (w1 : World) (e1 : list Event)
          (pkg : string) (w2 : World) (e2 : list Event),
      _pkgManagers this = pre ++ pm :: post ->
      askAll (askOwningPkg path) pre w = (answers, w1, e1) ->
      Forall (fun a => a = EmptyString) answers ->
      askOwningPkg path pm w1 = (pkg, w2, e2) ->
      pkg <> EmptyString ->
      fst (value (getOwningPackage victim this path w)) = pkg /\
      world (getOwningPackage victim this path w) = w2 /\
      trace (getOwningPackage victim this path w) = e1 ++ e2 /\
      QCache.peek (_cache (snd (value (getOwningPackage victim this path w)))) path =
        Some pkg) /\
  (forall (answers : list string) (w1 : World) (e1 : list Event),
      askAll (askOwningPkg path) (_pkgManagers this) w = (answers, w1, e1) ->
      Forall (fun a => a = EmptyString) answers ->
      fst (value (getOwningPackage victim this path w)) = EmptyString /\
      world (getOwningPackage victim this path w) = w1 /\
      trace (getOwningPackage victim this path w) = e1 /\
      QCache.peek (_cache (snd (value (getOwningPackage victim this path w)))) path =
        Some EmptyString).
Proof.
  intros Hmiss Hmx.
  pose proof (getOwningPackage_caches World victim this path w Hmx) as Hcached.
  rewrite (getOwningPackage_miss World victim this path w Hmiss) in *.
  cbv zeta in *. cbn [value world trace fst snd] in *.
  split.
  - intros pre pm post answers w1 e1 pkg w2 e2 Hlist Hpre Hempty Hpm Hpkg.
    rewrite Hlist in *.
    rewrite (getOwningPackage_loop_found path pre pm post EmptyString w w1 w2 e1 e2
               answers pkg Hpre Hempty Hpm Hpkg) in *.
    cbn [fst snd] in *. now repeat split.
  - intros answers w1 e1 Hall Hempty.
    rewrite (getOwningPackage_loop_none path _ w w1 e1 answers Hall Hempty) in *.
    cbn [fst snd] in *. now repeat split.
Qed.

Lemma askAll_cons {A : Type} (ask : PkgManager World -> M World A)
    (pm : PkgManager World) (pms : list (PkgManager World)) (w : World) :
  askAll ask (pm :: pms) w =
    let '(a, w1, e1) := ask pm w in
    let '(rest, w2, e2) := askAll ask pms w1 in
    (a :: rest, w2, e1 ++ e2).
Proof.
  cbn [askAll]. unfold bind.
  destruct (ask pm w) as [[a w1] e1].
  destruct (askAll ask pms w1) as [[rest w2] e2].
  cbn. now rewrite app_nil_r.
Qed.

Lemma getInstalledPkg_loop_askAll (pms : list (PkgManager World)) :
  forall (pkgList : PkgInfoList) (w : World),
    getInstalledPkg_loop pms pkgList w =
      (pkgList ++ List.concat (value (askAll askInstalledPkg pms w)),
       world (askAll askInstalledPkg pms w),
       trace (askAll askInstalledPkg pms w)).
Proof.
  induction pms as [|p pms IH]; intros pkgList w.
  - cbn. now rewrite app_nil_r.
  - cbn [getInstalledPkg_loop]. unfold bind.
    change (invoke p InstalledPkg (installedPkg p)) with (askInstalledPkg p).
    rewrite askAll_cons.
    destruct (askInstalledPkg p w) as [[l w1] e1].
    rewrite IH.
    destruct (askAll askInstalledPkg pms w1) as [[ls w2] e2].
    cbn. now rewrite app_assoc.
Qed.

(** C5: [getInstalledPkg] asks every manager of the list, in order, and
    returns their lists one after the other, each in its own order and
    with nothing left out: two managers that both report a package give it
    twice. *)
Theorem C5_installed_is_concatenation :
  (forall (this : PkgQuery World) (w : World),
      getInstalledPkg this w =
        (List.concat (value (askAll askInstalledPkg (_pkgManagers this) w)),
         world (askAll askInstalledPkg (_pkgManagers this) w),
         trace (askAll askInstalledPkg (_pkgManagers this) w)) /\
      List.length (value (askAll askInstalledPkg (_pkgManagers this) w)) =
        List.length (_pkgManagers this)) /\
  (forall (c : QCache.t) (p q : PkgInfo) (w : World),
      value (getInstalledPkg
               (mkPkgQuery c
                  [constManager "first" (fun _ => EmptyString) [p; q] [];
                   constManager "second" (fun _ => EmptyString) [p] []] []) w) =
        [p; q; p]).
Proof.
  split.
  - intros this w. split.
    + unfold getInstalledPkg. now rewrite getInstalledPkg_loop_askAll.
    + generalize w. induction (_pkgManagers this) as [|pm pms IH]; intros w'.
      * reflexivity.
      * rewrite askAll_cons.
        destruct (askInstalledPkg pm w') as [[l w1] e1].
        specialize (IH w1).
        destruct (askAll askInstalledPkg pms w1) as [[ls w2] e2].
        cbn in *. now rewrite IH.
  - intros c p q w. reflexivity.
Qed.

Lemma getFileList_loop_found (pkg : PkgInfo) (pre : list (PkgManager World)) :
  forall (pm : PkgManager World) (post : list (PkgManager World))
         (w w1 w2 : World) (e1 e2 : list Event)
         (answers : list (list string)) (files : list string),
    askAll (askFileList pkg) pre w = (answers, w1, e1) ->
    Forall (fun a => a = []) answers ->
    askFileList pkg pm w1 = (files, w2, e2) ->
    files <> [] ->
    getFileList_loop (pre ++ pm :: post) pkg w = (files, w2, e1 ++ e2).
Proof.
  induction pre as [|p pre IH];
    intros pm post w w1 w2 e1 e2 answers files Hpre Hall Hpm Hfiles.
  - cbn in Hpre. injection Hpre as _ Hw He. subst w1 e1.
    cbn [app getFileList_loop]. unfold bind.
    unfold askFileList in Hpm. rewrite Hpm.
    destruct files as [|f files]; [congruence|].
    cbn. now rewrite app_nil_r.
  - cbn [askAll] in Hpre. unfold bind in Hpre.
    cbn [app getFileList_loop]. unfold bind.
    unfold askFileList at 1 in Hpre.
    destruct (invoke p (FileList pkg) (fileList p pkg) w) as [[a wa] ea].
    destruct (askAll (askFileList pkg) pre wa) as [[rest wb] eb] eqn:Hrest.
    cbn in Hpre. injection Hpre as Hans Hw He. subst answers w1 e1.
    inversion Hall as [|? ? Ha Hall']; subst.
    rewrite (IH pm post wa wb w2 eb e2 rest files Hrest Hall' Hpm Hfiles).
    now rewrite app_nil_r, app_assoc.
Qed.

Lemma getFileList_loop_none (pkg : PkgInfo) (pms : list (PkgManager World)) :
  forall (w w1 : World) (e1 : list Event) (answers : list (list string)),
    askAll (askFileList pkg) pms w = (answers, w1, e1) ->
    Forall (fun a => a = []) answers ->
    getFileList_loop pms pkg w = ([], w1, e1).
Proof.
  induction pms as [|p pms IH]; intros w w1 e1 answers Hall Hempty.
  - cbn in Hall. injection Hall as _ Hw He. now subst.
  - cbn [askAll] in Hall. unfold bind in Hall.
    cbn [getFileList_loop]. unfold bind.
    unfold askFileList at 1 in Hall.
    destruct (invoke p (FileList pkg) (fileList p pkg) w) as [[a wa] ea].
    destruct (askAll (askFileList pkg) pms wa) as [[rest wb] eb] eqn:Hrest.
    cbn in Hall. injection Hall as Hans Hw He. subst answers w1 e1.
    inversion Hempty as [|? ? Ha Hempty']; subst.
    rewrite (IH wa wb eb rest Hrest Hempty').
    now rewrite app_nil_r.
Qed.

(** C6: [getFileList] returns the list of the first manager, in the order
    of the registry, whose list is not empty, having asked the managers up
    to that one and none behind it; it returns the empty list when every
    manager gives the empty list; with managers giving [], [] and
    ["a"; "b"] it returns ["a"; "b"]. *)
Theorem C6_first_file_list_wins
    (this : PkgQuery World) (pkg : PkgInfo) (w : World) :
  (forall (pre : list (PkgManager World)) (pm : PkgManager World)
          (post : list (PkgManager World))
          (answers : list (list string)) (w1 : World) (e1 : list Event)
          (files : list string) (w2 : World) (e2 : list Event),
      _pkgManagers this = pre ++ pm :: post ->
      askAll (askFileList pkg) pre w = (answers, w1, e1) ->
      Forall (fun a => a = []) answers ->
      askFileList pkg pm w1 = (files, w2, e2) ->
      files <> [] ->
      getFileList this pkg w = (files, w2, e1 ++ e2)) /\
  (forall (answers : list (list string)) (w1 : World) (e1 : list Event),
      askAll (askFileList pkg) (_pkgManagers this) w = (answers, w1, e1) ->
      Forall (fun a => a = []) answers ->
      getFileList this pkg w = ([], w1, e1)) /\
  (forall (c : QCache.t) (later : list (PkgManager World)),
      getFileList
        (mkPkgQuery c
           (constManager "first" (fun _ => EmptyString) [] [] ::
            constManager "second" (fun _ => EmptyString) [] [] ::
            constManager "third" (fun _ => EmptyString) [] ["a"; "b"] :: later) [])
        pkg w =
        (["a"; "b"], w,
         [Invoke "first" (FileList pkg); Invoke "second" (FileList pkg);
          Invoke "third" (FileList pkg)])).
Proof.
  split; [|split].
  - intros pre pm post answers w1 e1 files w2 e2 Hlist Hpre Hempty Hpm Hfiles.
    unfold getFileList. rewrite Hlist.
    eapply getFileList_loop_found; eassumption.
  - intros answers w1 e1 Hall Hempty.
    unfold getFileList. eapply getFileList_loop_none; eassumption.
  - intros c later. reflexivity.
Qed.

End Dispatch.

(** C2 with a primary manager A and a secondary manager B that both
    answer: the answer is A's and B is not asked; and with two managers that
    answer with the empty string. *)
Lemma C2_witness :
  (let r := getOwningPackage QCache.lru (queryOf [managerA; managerB]) "/bin/ls" 0%nat in
   fst (value r) = "pkgA" /\
   world r = 1%nat /\
   trace r = [] ++ [Invoke "A" (OwningPkg "/bin/ls")] /\
   QCache.peek (_cache (snd (value r))) "/bin/ls" = Some "pkgA") /\
  (let r := getOwningPackage QCache.lru
              (queryOf [managerNone "N1"; managerNone "N2"]) "/bin/ls" 0%nat in
   fst (value r) = EmptyString /\
   world r = 2%nat /\
   trace r = [Invoke "N1" (OwningPkg "/bin/ls"); Invoke "N2" (OwningPkg "/bin/ls")] /\
   QCache.peek (_cache (snd (value r))) "/bin/ls" = Some EmptyString).
Proof.
  split.
  - destruct (C2_first_answer_wins Fake.World QCache.lru
                (queryOf [managerA; managerB]) "/bin/ls" 0%nat) as [Found _].
    + reflexivity.
    + vm_compute. discriminate.
    + apply (Found [] managerA [managerB] [] 0%nat [] "pkgA" 1%nat
               [Invoke "A" (OwningPkg "/bin/ls")]).
      * reflexivity.
      * reflexivity.
      * constructor.
      * reflexivity.
      * discriminate.
  - destruct (C2_first_answer_wins Fake.World QCache.lru
                (queryOf [managerNone "N1"; managerNone "N2"]) "/bin/ls" 0%nat)
      as [_ NotFound].
    + reflexivity.
    + vm_compute. discriminate.
    + apply (NotFound [EmptyString; EmptyString] 2%nat).
      * reflexivity.
      * repeat constructor.
Defined.

(** C6 with managers giving [], [], ["a"; "b"] and a fourth one behind
    them, which is not asked. *)
Lemma C6_witness :
  getFileList
    (queryOf [managerNone "N1"; managerNone "N2"; managerFiles; managerB])
    somePkg 0%nat =
    (["a"; "b"], 3%nat,
     [Invoke "N1" (FileList somePkg); Invoke "N2" (FileList somePkg)] ++
     [Invoke "F" (FileList somePkg)]) /\
  getFileList (queryOf [managerNone "N1"; managerNone "N2"]) somePkg 0%nat =
    ([], 2%nat, [Invoke "N1" (FileList somePkg); Invoke "N2" (FileList somePkg)]).
Proof.
  split.
  - destruct (C6_first_file_list_wins Fake.World
                (queryOf [managerNone "N1"; managerNone "N2"; managerFiles; managerB])
                somePkg 0%nat) as (Found & _ & _).
    apply (Found [managerNone "N1"; managerNone "N2"] managerFiles [managerB]
             [[]; []] 2%nat).
    + reflexivity.
    + reflexivity.
    + repeat constructor.
    + reflexivity.
    + discriminate.
  - destruct (C6_first_file_list_wins Fake.World
                (queryOf [managerNone "N1"; managerNone "N2"]) somePkg 0%nat)
      as (_ & NotFound & _).
    apply (NotFound [[]; []]).
    + reflexivity.
    + repeat constructor.
Defined.

(** C3 at a host with dpkg in control, pacman installed and no rpm. *)
Lemma C3_witness :
  map name (_pkgManagers (value (fakeHostQuery 0%nat))) = ["dpkg"; "pacman"] /\
  ~ In "rpm" (map name (_pkgManagers (value (fakeHostQuery 0%nat)))).
Proof.
  destruct (C3_primary_before_secondary Fake.World (Fake.run EmptyString 1)
              (Fake.tryRun ["/usr/bin/dpkg -S /usr/bin/dpkg"])
              (Fake.have ["/usr/bin/dpkg"; "/usr/bin/pacman"])
              (Fake.answer []) (fun _ => Fake.answer [])
              (Fake.answer []) (fun _ => Fake.answer [])
              QCache.lru 0%nat) as (Order & _ & _ & Discarded).
  split.
  - unfold fakeHostQuery. rewrite Order. reflexivity.
  - apply (Discarded
             (RpmPkgManager_upcast Fake.World (Fake.run EmptyString 1)
                (Fake.tryRun ["/usr/bin/dpkg -S /usr/bin/dpkg"])
                (Fake.have ["/usr/bin/dpkg"; "/usr/bin/pacman"])
                (Fake.answer []) (fun _ => Fake.answer [])
                (mkRpmPkgManager "/bin/rpm"))).
    right. left. reflexivity.
Defined.

(** C4 with 600 distinct paths and Qt's least-recently-used eviction. *)
Lemma C4_witness :
  QCache.count
    (_cache (value (getOwningPackages QCache.lru (value (fakeHostQuery 0%nat))
                      (Fake.paths 600) 5%nat))) = 500%nat.
Proof.
  apply (C4_cache_holds_at_most_500 Fake.World (Fake.run EmptyString 1)
           (Fake.tryRun ["/usr/bin/dpkg -S /usr/bin/dpkg"])
           (Fake.have ["/usr/bin/dpkg"; "/usr/bin/pacman"])
           (Fake.answer []) (fun _ => Fake.answer [])
           (Fake.answer []) (fun _ => Fake.answer [])
           QCache.lru 0%nat 5%nat (Fake.paths 600)).
  - apply nodupb_sound. vm_compute. reflexivity.
  - vm_compute. reflexivity.
Defined.

(** * Further properties *)

(** ** The dpkg listing parser *)

Lemma split_nonempty (sep : ascii) (s : string) :
  exists f fs, QString.split sep s = f :: fs.
Proof.
  destruct s as [|c s]; cbn [QString.split]; [now eexists; eexists|].
  destruct (Ascii.eqb c sep); [now eexists; eexists|].
  destruct (QString.split sep s); now eexists; eexists.
Qed.

(** Splitting goes through a separator: the fields in front of it and
    the fields behind it. *)
Lemma split_at_separator (sep : ascii) (a b : string) :
  QString.split sep (a ++ String sep b) =
  QString.split sep a ++ QString.split sep b.
Proof.
  induction a as [|c a IH]; cbn [QString.split append].
  - now rewrite Ascii.eqb_refl.
  - destruct (Ascii.eqb c sep).
    + now rewrite IH.
    + rewrite IH. destruct (split_nonempty sep a) as (f & fs & E).
      rewrite E. reflexivity.
Qed.

Lemma split_fields_free (sep : ascii) (s : string) :
  Forall (fun f => hasChar sep f = false) (QString.split sep s).
Proof.
  induction s as [|c s IH]; cbn [QString.split].
  - repeat constructor.
  - destruct (Ascii.eqb c sep) eqn:Ec.
    + constructor; [reflexivity|assumption].
    + destruct (QString.split sep s) as [|f fs]; [repeat constructor|].
      * cbn. now rewrite Ec.
      * inversion IH as [|? ? Hf Hfs]; subst.
        constructor; [|assumption]. cbn. now rewrite Ec.
Qed.

Lemma split_fields_keep_free (sep c : ascii) (s : string) :
  hasChar c s = false ->
  Forall (fun f => hasChar c f = false) (QString.split sep s).
Proof.
  induction s as [|a s IH]; cbn [QString.split hasChar]; intros H.
  - repeat constructor.
  - apply orb_false_iff in H as [Ha Hs]. specialize (IH Hs).
    destruct (Ascii.eqb a sep).
    + constructor; [reflexivity|assumption].
    + destruct (QString.split sep s) as [|f fs].
      * repeat constructor. cbn. now rewrite Ha.
      * inversion IH as [|? ? Hf Hfs]; subst.
        constructor; [|assumption]. cbn. now rewrite Ha, Hf.
Qed.

Lemma hasChar_append (c : ascii) (a b : string) :
  hasChar c (a ++ b) = hasChar c a || hasChar c b.
Proof.
  induction a as [|x a IH]; cbn [append hasChar]; [reflexivity|].
  now rewrite IH, orb_assoc.
Qed.

Lemma parsePkgList_lines (output : string) :
  parsePkgList output =
  map dpkgLineRecord (filter dpkgLineAccepted (QString.split newline output)).
Proof. unfold parsePkgList. now rewrite parsePkgList_fold. Qed.

Lemma parsePkgList_at_line_feed (a b : string) :
  parsePkgList (a ++ String newline b) = parsePkgList a ++ parsePkgList b.
Proof.
  rewrite !parsePkgList_lines, split_at_separator, filter_app, map_app.
  reflexivity.
Qed.

(** X1: what is parsed from a text with a line feed in it is what is
    parsed from the text in front of the line feed, followed by what is
    parsed from the text behind it. *)
Theorem X1_parsePkgList_line_feed (a b : string) :
  parsePkgList (a ++ String newline b) = parsePkgList a ++ parsePkgList b.
Proof. apply parsePkgList_at_line_feed. Qed.

Lemma string_append_assoc (a b c : string) :
  ((a ++ b) ++ c)%string = (a ++ (b ++ c))%string.
Proof.
  induction a as [|x a IH]; cbn [append]; [reflexivity|]. now rewrite IH.
Qed.

Lemma plainField_spec (s : string) :
  plainField s = true -> hasChar blank s = false /\ hasChar newline s = false.
Proof.
  unfold plainField. intros H. apply andb_true_iff in H as [Hb Hn].
  split; now apply negb_true_iff.
Qed.

Lemma parsePkgList_showformat (pkg : PkgInfo) :
  plainPkg pkg = true ->
  parsePkgList (pkgName pkg ++ " " ++ pkgArch pkg ++ " " ++ pkgVersion pkg) = [pkg].
Proof.
  unfold plainPkg. intros H.
  apply andb_true_iff in H as [H Hv]. apply andb_true_iff in H as [Hn Ha].
  apply plainField_spec in Hn as [Hnb Hnn].
  apply plainField_spec in Ha as [Hab Han].
  apply plainField_spec in Hv as [Hvb Hvn].
  rewrite parsePkgList_lines, split_no_separator.
  - destruct (dpkgLine_wellFormed (pkgName pkg) (pkgArch pkg) (pkgVersion pkg)
                Hnb Hab Hvb) as [Hacc Hrec].
    cbn [filter]. rewrite Hacc. cbn [map]. rewrite Hrec.
    now destruct pkg.
  - rewrite !hasChar_append, Hnn, Han, Hvn. reflexivity.
Qed.

Lemma parsePkgList_of_showPkgList (pkgs : PkgInfoList) :
  forallb plainPkg pkgs = true ->
  parsePkgList (showPkgList pkgs) = pkgs.
Proof.
  induction pkgs as [|pkg pkgs IH]; intros H; [reflexivity|].
  cbn [forallb] in H. apply andb_true_iff in H as [Hpkg Hpkgs].
  cbn [showPkgList fold_right]. fold (showPkgList pkgs).
  unfold showformat.
  replace ((pkgName pkg ++ " " ++ pkgArch pkg ++ " " ++ pkgVersion pkg
            ++ String newline EmptyString) ++ showPkgList pkgs)%string
    with ((pkgName pkg ++ " " ++ pkgArch pkg ++ " " ++ pkgVersion pkg)
            ++ String newline (showPkgList pkgs))%string.
  - rewrite parsePkgList_at_line_feed, (parsePkgList_showformat pkg Hpkg), (IH Hpkgs).
    reflexivity.
  - rewrite !string_append_assoc. reflexivity.
Qed.

(** X2: the listing that dpkg-query prints for a list of packages, one
    line "name architecture version" per package, is parsed back into that
    list, when no field has a blank or a line feed in it. *)
Theorem X2_parsePkgList_showPkgList (pkgs : PkgInfoList) :
  forallb plainPkg pkgs = true ->
  parsePkgList (showPkgList pkgs) = pkgs.
Proof. apply parsePkgList_of_showPkgList. Qed.

Lemma plainField_intro (s : string) :
  hasChar blank s = false -> hasChar newline s = false -> plainField s = true.
Proof. unfold plainField. intros -> ->. reflexivity. Qed.

Lemma dpkgLineRecord_plain (line : string) :
  hasChar newline line = false ->
  dpkgLineAccepted line = true ->
  plainPkg (dpkgLineRecord line) = true.
Proof.
  intros Hnl Hacc. unfold dpkgLineAccepted in Hacc.
  apply andb_true_iff in Hacc as [_ Hlen]. apply Nat.eqb_eq in Hlen.
  pose proof (split_fields_free blank line) as Hblank.
  pose proof (split_fields_keep_free blank newline line Hnl) as Hnewline.
  unfold dpkgLineRecord, dpkgLineFields in *.
  rewrite Forall_forall in Hblank, Hnewline.
  assert (Hnth : forall i, (i < 3)%nat ->
            plainField (nth i (QString.split blank line) EmptyString) = true).
  { intros i Hi. apply plainField_intro.
    - apply Hblank, nth_In. lia.
    - apply Hnewline, nth_In. lia. }
  unfold plainPkg. cbn [pkgName pkgArch pkgVersion].
  rewrite (Hnth 0%nat), (Hnth 1%nat), (Hnth 2%nat) by lia. reflexivity.
Qed.

(** X3: whatever the input, every record that [parsePkgList] returns has
    a name, an architecture and a version without a blank and without a line
    feed, and there are at most as many records as there are lines. *)
Theorem X3_parsePkgList_records_plain (output : string) :
  (forall pkg : PkgInfo, In pkg (parsePkgList output) -> plainPkg pkg = true) /\
  (List.length (parsePkgList output) <=
     List.length (QString.split newline output))%nat.
Proof.
  rewrite parsePkgList_lines. split.
  - intros pkg Hin. apply in_map_iff in Hin as (line & Hrec & Hline).
    apply filter_In in Hline as [Hline Hacc]. subst pkg.
    apply dpkgLineRecord_plain; [|assumption].
    pose proof (split_fields_free newline output) as Hfree.
    rewrite Forall_forall in Hfree. now apply Hfree.
  - rewrite length_map. apply filter_length_le.
Qed.

(** X3 at the listing "pkgA amd64 1.0", "GARBAGE", "pkgB amd64 2.0". *)
Lemma X3_witness :
  plainPkg (mkPkgInfo "pkgA" "1.0" "amd64") = true.
Proof.
  apply (proj1 (X3_parsePkgList_records_plain dpkgListing)).
  left. reflexivity.
Defined.

Section InstalledPkg.

Variable World : Type.
Variable sys_runCommand : string -> list string -> World -> (string * Z) * World.

(** X4: [DpkgPkgManager::installedPkg] runs dpkg-query once; when that
    exits with a code other than 0 the result is the empty list, whatever
    was printed; when it exits with 0 and has printed the listing of a list
    of packages whose fields have no blank and no line feed, the result is
    that list. *)
Theorem X4_dpkg_installedPkg (w w' : World) (output : string) (exitCode : Z) :
  sys_runCommand "/usr/bin/dpkg-query" dpkgQueryArgs w = ((output, exitCode), w') ->
  (exitCode <> 0%Z ->
   DpkgPkgManager_installedPkg sys_runCommand w =
     ([], w', [RunCommand "/usr/bin/dpkg-query" dpkgQueryArgs])) /\
  (forall pkgs : PkgInfoList,
      exitCode = 0%Z ->
      output = showPkgList pkgs ->
      forallb plainPkg pkgs = true ->
      DpkgPkgManager_installedPkg sys_runCommand w =
        (pkgs, w', [RunCommand "/usr/bin/dpkg-query" dpkgQueryArgs])).
Proof.
  intros Hrun. unfold DpkgPkgManager_installedPkg, bind, runCommand.
  fold dpkgQueryArgs. rewrite Hrun. split.
  - intros Hcode. destruct (Z.eqb_spec exitCode 0); [contradiction|reflexivity].
  - intros pkgs -> -> Hplain. cbn [Z.eqb ret app].
    rewrite (parsePkgList_of_showPkgList pkgs Hplain). reflexivity.
Qed.

End InstalledPkg.

(** ** The owner queries of the three managers *)

Lemma section_0_0_free (sep : ascii) (s : string) :
  hasChar sep (QString.section_0_0 sep s) = false.
Proof.
  induction s as [|c s IH]; cbn [QString.section_0_0]; [reflexivity|].
  destruct (Ascii.eqb c sep) eqn:Ec; [reflexivity|].
  cbn [hasChar]. now rewrite Ec, IH.
Qed.

Lemma section_0_0_prefix (sep : ascii) (s : string) :
  exists t : string, s = (QString.section_0_0 sep s ++ t)%string.
Proof.
  induction s as [|c s [t IH]]; cbn [QString.section_0_0].
  - now exists EmptyString.
  - destruct (Ascii.eqb c sep).
    + now exists (String c s).
    + exists t. cbn [append]. now rewrite <- IH.
Qed.

Lemma startsWith_empty (s : string) : QString.startsWith s EmptyString = true.
Proof. destruct s; reflexivity. Qed.

Lemma contains_empty (s : string) : QString.contains s EmptyString = true.
Proof. destruct s; reflexivity. Qed.

Lemma startsWith_append (r t m : string) :
  QString.startsWith r m = true -> QString.startsWith (r ++ t) m = true.
Proof.
  revert m; induction r as [|c r IH]; intros m H.
  - destruct m; [apply startsWith_empty|discriminate].
  - destruct m as [|a m]; [reflexivity|].
    cbn [QString.startsWith append] in *.
    apply andb_true_iff in H as [Ha Hm]. rewrite Ha. now apply IH.
Qed.

Lemma contains_append (r t m : string) :
  QString.contains r m = true -> QString.contains (r ++ t) m = true.
Proof.
  induction r as [|c r IH]; intros H.
  - destruct m; [apply contains_empty|discriminate].
  - cbn [QString.contains append] in *.
    apply orb_true_iff in H as [H|H].
    + change (String c (r ++ t)) with (String c r ++ t)%string.
      rewrite (startsWith_append _ t m H). reflexivity.
    + rewrite (IH H). apply orb_true_r.
Qed.

Lemma startsWith_hasChar (c : ascii) (s m : string) :
  QString.startsWith s m = true -> hasChar c m = true -> hasChar c s = true.
Proof.
  revert m; induction s as [|a s IH]; intros m Hs Hm.
  - destruct m; [discriminate Hm|discriminate Hs].
  - destruct m as [|b m]; [discriminate Hm|].
    cbn [QString.startsWith hasChar] in *.
    apply andb_true_iff in Hs as [Hab Hs].
    apply Ascii.eqb_eq in Hab. subst b.
    apply orb_true_iff in Hm as [Hm|Hm].
    + now rewrite Hm.
    + rewrite (IH m Hs Hm). apply orb_true_r.
Qed.

Lemma contains_hasChar (c : ascii) (s m : string) :
  QString.contains s m = true -> hasChar c m = true -> hasChar c s = true.
Proof.
  induction s as [|a s IH]; intros Hs Hm.
  - eapply startsWith_hasChar; eassumption.
  - cbn [QString.contains] in Hs. apply orb_true_iff in Hs as [Hs|Hs].
    + eapply startsWith_hasChar; eassumption.
    + cbn [hasChar]. rewrite (IH Hs Hm). apply orb_true_r.
Qed.

Lemma section_0_0_contains (sep : ascii) (s m : string) :
  QString.contains s m = false ->
  QString.contains (QString.section_0_0 sep s) m = false.
Proof.
  intros H. destruct (QString.contains (QString.section_0_0 sep s) m) eqn:E;
    [|reflexivity].
  destruct (section_0_0_prefix sep s) as [t Ht].
  apply (contains_append _ t) in E. rewrite <- Ht in E. congruence.
Qed.

Section OwnerNames.

Variable World : Type.
Variable sys_runCommand : string -> list string -> World -> (string * Z) * World.

(** X5: when dpkg exits with code 0 and prints, without "no path found
    matching pattern", a text that starts with a colon-free [pkg] and a
    colon, [DpkgPkgManager::owningPkg] returns [pkg], whatever follows the
    colon, and has run the one command "/usr/bin/dpkg -S path". *)
Theorem X5_dpkg_owningPkg_before_colon
    (path : string) (w w' : World) (pkg rest : string) :
  sys_runCommand "/usr/bin/dpkg" ["-S"; path] w =
    ((pkg ++ String colon rest)%string, 0%Z, w') ->
  QString.contains (pkg ++ String colon rest) "no path found matching pattern" = false ->
  hasChar colon pkg = false ->
  DpkgPkgManager_owningPkg sys_runCommand path w =
    (pkg, w', [RunCommand "/usr/bin/dpkg" ["-S"; path]]).
Proof.
  intros Hrun Hmark Hpkg.
  unfold DpkgPkgManager_owningPkg, bind, runCommand.
  rewrite Hrun, Hmark. cbn [Z.eqb negb orb ret app].
  now rewrite (section_0_0_append colon pkg rest Hpkg).
Qed.

Lemma pacman_owningPkg_no_blank (path : string) (w : World) :
  hasChar blank (value (PacManPkgManager_owningPkg sys_runCommand path w)) = false.
Proof.
  unfold PacManPkgManager_owningPkg, bind, runCommand.
  destruct (sys_runCommand "/usr/bin/pacman" ["-Qo"; path] w) as [[output exitCode] w'].
  destruct (negb (exitCode =? 0)%Z || QString.contains output _);
    [reflexivity|apply section_0_0_free].
Qed.

(** X6: whatever the host answers, the name that
    [DpkgPkgManager::owningPkg] returns has no colon in it, and the name
    that [PacManPkgManager::owningPkg] returns has no blank in it. *)
Theorem X6_owner_names_without_separator (path : string) (w : World) :
  hasChar colon (value (DpkgPkgManager_owningPkg sys_runCommand path w)) = false /\
  hasChar blank (value (PacManPkgManager_owningPkg sys_runCommand path w)) = false.
Proof.
  split.
  - unfold DpkgPkgManager_owningPkg, bind, runCommand.
    destruct (sys_runCommand "/usr/bin/dpkg" ["-S"; path] w) as [[output exitCode] w'].
    destruct (negb (exitCode =? 0)%Z || QString.contains output _);
      [reflexivity|apply section_0_0_free].
  - unfold PacManPkgManager_owningPkg, bind, runCommand.
    destruct (sys_runCommand "/usr/bin/pacman" ["-Qo"; path] w) as [[output exitCode] w'].
    destruct (negb (exitCode =? 0)%Z || QString.contains output _);
      [reflexivity|apply section_0_0_free].
Qed.

(** X7: none of the three [owningPkg] ever returns a text that contains
    the failure marker of its manager: a message of the command is not taken
    for a package name. *)
Theorem X7_owner_names_without_marker
    (this : RpmPkgManager) (path : string) (w : World) :
  QString.contains (value (DpkgPkgManager_owningPkg sys_runCommand path w))
    "no path found matching pattern" = false /\
  QString.contains (value (RpmPkgManager_owningPkg sys_runCommand this path w))
    "not owned by any package" = false /\
  QString.contains (value (PacManPkgManager_owningPkg sys_runCommand path w))
    "No package owns" = false.
Proof.
  split; [|split].
  - unfold DpkgPkgManager_owningPkg, bind, runCommand.
    destruct (sys_runCommand "/usr/bin/dpkg" ["-S"; path] w) as [[output exitCode] w'].
    destruct (negb (exitCode =? 0)%Z) ; [reflexivity|]. cbn [orb].
    destruct (QString.contains output _) eqn:Hmark; [reflexivity|].
    cbn [ret value fst app]. now apply section_0_0_contains.
  - unfold RpmPkgManager_owningPkg, bind, runCommand.
    destruct (sys_runCommand (_rpmCommand this) _ w) as [[output exitCode] w'].
    destruct (negb (exitCode =? 0)%Z) ; [reflexivity|]. cbn [orb].
    destruct (QString.contains output _) eqn:Hmark; [reflexivity|].
    exact Hmark.
  - pose proof (pacman_owningPkg_no_blank path w) as Hblank.
    destruct (QString.contains _ "No package owns") eqn:E; [|reflexivity].
    apply (contains_hasChar blank) in E; [congruence|reflexivity].
Qed.

(** X8: when pacman exits with code 0 and its output has neither "No
    package owns" nor "is owned by " in it, nothing is removed from the
    output and [PacManPkgManager::owningPkg] returns its text in front of
    the first blank. *)
Theorem X8_pacman_owningPkg_without_prefix
    (path : string) (w w' : World) (output : string) :
  sys_runCommand "/usr/bin/pacman" ["-Qo"; path] w = ((output, 0%Z), w') ->
  QString.contains output "No package owns" = false ->
  QString.contains output ownedBy = false ->
  value (PacManPkgManager_owningPkg sys_runCommand path w) =
    QString.section_0_0 blank output.
Proof.
  intros Hrun Hmark Hnone.
  unfold PacManPkgManager_owningPkg, bind, runCommand.
  rewrite Hrun, Hmark. cbn [Z.eqb negb orb ret app value fst].
  unfold QString.removeThroughLast.
  apply afterLast_none_iff in Hnone. now rewrite Hnone.
Qed.

End OwnerNames.

(** ** The registry build *)

Section RegistryBuild.

Variable World : Type.
Variable sys_runCommand : string -> list string -> World -> (string * Z) * World.
Variable sys_tryRunCommand : string -> string -> World -> bool * World.
Variable sys_haveCommand : string -> World -> bool * World.
Variable rpm_installedPkg : M World PkgInfoList.
Variable rpm_fileList : PkgInfo -> M World (list string).
Variable pacman_installedPkg : M World PkgInfoList.
Variable pacman_fileList : PkgInfo -> M World (list string).
Variable victim : list QCache.Node -> nat.

Local Abbreviation newPkgQuery :=
  (PkgQuery_new World sys_runCommand sys_tryRunCommand sys_haveCommand
     rpm_installedPkg rpm_fileList pacman_installedPkg pacman_fileList victim).
Local Abbreviation probes :=
  (probeAll World sys_runCommand sys_tryRunCommand sys_haveCommand
     rpm_installedPkg rpm_fileList pacman_installedPkg pacman_fileList).

Lemma newPkgQuery_managers (w : World) :
  exists (pm1 pm2 pm3 : PkgManager World) (c1 c2 c3 : Class),
    value (probes w) = [(pm1, c1); (pm2, c2); (pm3, c3)] /\
    name pm1 = "dpkg" /\ name pm2 = "rpm" /\ name pm3 = "pacman" /\
    _pkgManagers (value (newPkgQuery w)) =
      classified Primary [(pm1, c1); (pm2, c2); (pm3, c3)] ++
      classified Secondary [(pm1, c1); (pm2, c2); (pm3, c3)].
Proof.
  destruct (probes_shape World sys_runCommand sys_tryRunCommand sys_haveCommand
              rpm_installedPkg rpm_fileList pacman_installedPkg pacman_fileList w)
    as (rpm & c1 & c2 & c3 & Hshape).
  do 3 eexists. exists c1, c2, c3.
  split; [exact Hshape|].
  rewrite PkgQuery_new_probes, Hshape.
  repeat split; reflexivity.
Qed.

(** X9: after the build, [foundSupportedPkgManager] is true exactly when
    one of the three managers was found primary or available. *)
Theorem X9_foundSupportedPkgManager_iff_some_manager (w : World) :
  foundSupportedPkgManager (value (newPkgQuery w)) =
    existsb (fun probed => negb (Class_eqb (snd probed) Absent)) (value (probes w)).
Proof.
  destruct (newPkgQuery_managers w)
    as (pm1 & pm2 & pm3 & c1 & c2 & c3 & Hshape & _ & _ & _ & Hlist).
  unfold foundSupportedPkgManager. rewrite Hlist, Hshape.
  destruct c1, c2, c3; reflexivity.
Qed.

(** X10: the list that the build leaves has at most three managers, each
    of dpkg, rpm and pacman at most once, and no other. *)
Theorem X10_registry_without_duplicates (w : World) :
  (List.length (_pkgManagers (value (newPkgQuery w))) <= 3)%nat /\
  NoDup (map name (_pkgManagers (value (newPkgQuery w)))) /\
  incl (map name (_pkgManagers (value (newPkgQuery w)))) ["dpkg"; "rpm"; "pacman"].
Proof.
  destruct (newPkgQuery_managers w)
    as (pm1 & pm2 & pm3 & c1 & c2 & c3 & _ & N1 & N2 & N3 & Hlist).
  rewrite Hlist.
  destruct c1, c2, c3; cbn; rewrite ?N1, ?N2, ?N3;
    (split; [lia|split]);
    try (repeat constructor; cbn; intuition discriminate);
    intros x Hx; cbn in *; intuition.
Qed.

Ltac answer_probe :=
  match goal with
  | |- context [sys_tryRunCommand ?c ?e ?w] =>
      destruct (sys_tryRunCommand c e w) as [[|] ?]
  | |- context [sys_haveCommand ?c ?w] =>
      destruct (sys_haveCommand c w) as [[|] ?]
  end; cbv beta iota zeta.

(** X11: the build only probes: it never runs a query command with
    [runCommand], and it makes between four and seven calls to the host
    (one self-ownership probe per manager, one look for "/usr/bin/rpm" by the
    constructor of the rpm manager, and one look for the command of each
    manager that is not primary). *)
Theorem X11_registry_build_only_probes (w : World) :
  forallb (fun e => negb (isRunCommand e)) (trace (newPkgQuery w)) = true /\
  (4 <= hostCalls (trace (newPkgQuery w)) <= 7)%nat.
Proof.
  unfold PkgQuery_new, checkPkgManagers, checkPkgManager, RpmPkgManager_new,
    bind, invoke, ret, DpkgPkgManager, RpmPkgManager_upcast, PacManPkgManager,
    DpkgPkgManager_isPrimaryPkgManager, DpkgPkgManager_isAvailable,
    RpmPkgManager_isPrimaryPkgManager, RpmPkgManager_isAvailable,
    PacManPkgManager_isPrimaryPkgManager, PacManPkgManager_isAvailable,
    tryRunCommand, haveCommand.
  cbn [isPrimaryPkgManager isAvailable name].
  repeat answer_probe; cbn; (split; [reflexivity|lia]).
Qed.

End RegistryBuild.

(** ** Runs of queries *)

Section QueryRuns.

Variable World : Type.
Variable victim : list QCache.Node -> nat.

Lemma getOwningPackage_keeps_registry
    (this : PkgQuery World) (path : string) (w : World) :
  _pkgManagers (snd (value (getOwningPackage victim this path w))) =
    _pkgManagers this /\
  _secondaryPkgManagers (snd (value (getOwningPackage victim this path w))) =
    _secondaryPkgManagers this.
Proof.
  destruct (QCache.contains (_cache this) path) eqn:Hc.
  - rewrite getOwningPackage_hit by assumption. now split.
  - rewrite getOwningPackage_miss by assumption. now split.
Qed.

(** A property of the object that every call keeps is kept by a run of
    calls. *)
Lemma getOwningPackages_keeps (P : PkgQuery World -> Prop) :
  (forall this path w, P this -> P (snd (value (getOwningPackage victim this path w)))) ->
  forall paths this w, P this -> P (value (getOwningPackages victim this paths w)).
Proof.
  intros Hstep. induction paths as [|path paths IH]; intros this w HP; [exact HP|].
  cbn [getOwningPackages]. unfold bind.
  pose proof (Hstep this path w HP) as H1.
  destruct (getOwningPackage victim this path w) as [[[pkg this1] w1] e1].
  cbn [value fst snd] in *.
  specialize (IH this1 w1 H1).
  destruct (getOwningPackages victim this1 paths w1) as [[this2 w2] e2].
  exact IH.
Qed.

(** X12: no run of [getOwningPackage] calls changes the list of managers
    (or the list of secondary managers): the registry stays as the build
    left it. *)
Theorem X12_queries_keep_registry
    (this : PkgQuery World) (paths : list string) (w : World) :
  _pkgManagers (value (getOwningPackages victim this paths w)) = _pkgManagers this /\
  _secondaryPkgManagers (value (getOwningPackages victim this paths w)) =
    _secondaryPkgManagers this.
Proof.
  apply (getOwningPackages_keeps
           (fun q => _pkgManagers q = _pkgManagers this /\
                     _secondaryPkgManagers q = _secondaryPkgManagers this)).
  - intros q path w' [H1 H2].
    destruct (getOwningPackage_keeps_registry q path w') as [E1 E2].
    now rewrite E1, E2.
  - now split.
Qed.

Lemma insert_keys_subset (c : QCache.t) (k v k' : string) (acost : Z) :
  In k' (QCache.keys (snd (QCache.insert victim c k v acost))) ->
  k' = k \/ In k' (QCache.keys c).
Proof.
  unfold QCache.insert, QCache.keys.
  destruct (acost >? QCache.mx c)%Z; cbn [snd QCache.nodes map].
  - intros H. right. now apply removeKey_keys_In in H.
  - intros [E|H]; [now left|right].
    apply trim_keys_In in H. now apply removeKey_keys_In in H.
Qed.

Lemma getOwningPackage_keys (this : PkgQuery World) (path : string) (w : World)
    (k : string) :
  In k (QCache.keys (_cache (snd (value (getOwningPackage victim this path w))))) ->
  k = path \/ In k (QCache.keys (_cache this)).
Proof.
  destruct (QCache.contains (_cache this) path) eqn:Hc.
  - rewrite getOwningPackage_hit by assumption. cbn [value fst snd _cache].
    intros H. right. eapply lookup_keys_In. exact H.
  - rewrite getOwningPackage_miss by assumption. cbn [value fst snd _cache].
    apply insert_keys_subset.
Qed.

(** X13: the cache gains no key but the paths that were asked: after a
    run of [getOwningPackage] calls every key of the cache is one of the
    paths of the run or was a key before. *)
Theorem X13_cache_holds_asked_paths
    (paths : list string) :
  forall (this : PkgQuery World) (w : World) (k : string),
    In k (QCache.keys (_cache (value (getOwningPackages victim this paths w)))) ->
    In k paths \/ In k (QCache.keys (_cache this)).
Proof.
  induction paths as [|path paths IH]; intros this w k Hin; [now right|].
  cbn [getOwningPackages] in Hin. unfold bind in Hin.
  pose proof (getOwningPackage_keys this path w) as Hstep.
  destruct (getOwningPackage victim this path w) as [[[pkg this1] w1] e1].
  cbn [value fst snd] in *.
  specialize (IH this1 w1 k).
  destruct (getOwningPackages victim this1 paths w1) as [[this2 w2] e2].
  cbn [value fst snd] in *.
  destruct (IH Hin) as [H|H].
  - left. now right.
  - destruct (Hstep k H) as [E|H'].
    + left. now left.
    + now right.
Qed.

Lemma removeKey_Forall (Q : QCache.Node -> Prop) (k : string) (ns : list QCache.Node) :
  Forall Q ns -> Forall Q (QCache.removeKey k ns).
Proof.
  intros H. apply Forall_forall. intros n Hn.
  apply removeKey_In in Hn as [Hn _]. eapply Forall_forall; eassumption.
Qed.

Lemma trim_Forall (Q : QCache.Node -> Prop) (m : Z) (ns : list QCache.Node) :
  Forall Q ns -> Forall Q (QCache.trim victim m ns).
Proof.
  apply (trim_loop_preserves victim (Forall Q)).
  intros l H. apply Forall_forall. intros n Hn.
  eapply Forall_forall; [exact H|]. eapply removeAt_In; exact Hn.
Qed.

Lemma getOwningPackage_quiet (this : PkgQuery World) (path : string) (w : World) :
  quiet this ->
  getOwningPackage victim this path w =
    ((EmptyString, snd (value (getOwningPackage victim this path w))), w, []) /\
  quiet (snd (value (getOwningPackage victim this path w))).
Proof.
  intros [Hlist Hobj].
  destruct (QCache.contains (_cache this) path) eqn:Hc.
  - rewrite getOwningPackage_hit by assumption. cbn [value fst snd].
    unfold QCache.lookup.
    destruct (find _ (QCache.nodes (_cache this))) as [n|] eqn:Hfind.
    + apply find_some in Hfind as [Hin _].
      assert (Hn : QCache.object n = EmptyString)
        by (eapply Forall_forall in Hobj; eassumption).
      cbn [fst snd]. rewrite Hn. split; [reflexivity|].
      split; [assumption|]. cbn [_cache QCache.nodes].
      constructor; [assumption|now apply removeKey_Forall].
    + cbn [fst snd]. split; [reflexivity|]. now split.
  - rewrite getOwningPackage_miss by assumption. rewrite Hlist.
    cbn [getOwningPackage_loop ret value world trace fst snd].
    split; [reflexivity|]. split; [reflexivity|].
    cbn [_cache]. unfold QCache.insert.
    destruct (CACHE_COST >? QCache.mx (_cache this))%Z; cbn [snd QCache.nodes].
    + now apply removeKey_Forall.
    + constructor; [reflexivity|]. now apply trim_Forall, removeKey_Forall.
Qed.

(** X14: an object that has no manager and an empty cache answers every
    query with an empty result and never reaches the host, after any run of
    earlier queries: [getOwningPackage] returns the empty string,
    [getInstalledPkg] and [getFileList] the empty list, each with an empty
    trace and the host as it was. *)
Theorem X14_no_manager_no_host_call
    (this : PkgQuery World) (paths : list string) (w : World) :
  _pkgManagers this = [] ->
  QCache.nodes (_cache this) = [] ->
  let this' := value (getOwningPackages victim this paths w) in
  foundSupportedPkgManager this' = false /\
  (forall (path : string) (w' : World),
      fst (value (getOwningPackage victim this' path w')) = EmptyString /\
      world (getOwningPackage victim this' path w') = w' /\
      trace (getOwningPackage victim this' path w') = []) /\
  (forall w' : World, getInstalledPkg this' w' = ([], w', [])) /\
  (forall (pkg : PkgInfo) (w' : World), getFileList this' pkg w' = ([], w', [])).
Proof.
  intros Hlist Hcache this'.
  assert (Hq : quiet this').
  { apply (getOwningPackages_keeps quiet).
    - intros q path w' Hq. now apply getOwningPackage_quiet.
    - split; [assumption|]. rewrite Hcache. constructor. }
  destruct Hq as [Hl Ho].
  split; [|split; [|split]].
  - unfold foundSupportedPkgManager. now rewrite Hl.
  - intros path w'.
    destruct (getOwningPackage_quiet this' path w' (conj Hl Ho)) as [E _].
    rewrite E. now repeat split.
  - intros w'. unfold getInstalledPkg. now rewrite Hl.
  - intros pkg w'. unfold getFileList. now rewrite Hl.
Qed.

End QueryRuns.

(** ** The static functions *)

Section StaticCalls.

Variable World : Type.
Variable sys_runCommand : string -> list string -> World -> (string * Z) * World.
Variable sys_tryRunCommand : string -> string -> World -> bool * World.
Variable sys_haveCommand : string -> World -> bool * World.
Variable rpm_installedPkg : M World PkgInfoList.
Variable rpm_fileList : PkgInfo -> M World (list string).
Variable pacman_installedPkg : M World PkgInfoList.
Variable pacman_fileList : PkgInfo -> M World (list string).
Variable victim : list QCache.Node -> nat.

Local Abbreviation newPkgQuery :=
  (PkgQuery_new World sys_runCommand sys_tryRunCommand sys_haveCommand
     rpm_installedPkg rpm_fileList pacman_installedPkg pacman_fileList victim).
Local Abbreviation static_owningPkg :=
  (PkgQuery_owningPkg World sys_runCommand sys_tryRunCommand sys_haveCommand
     rpm_installedPkg rpm_fileList pacman_installedPkg pacman_fileList victim).
Local Abbreviation static_foundSupportedPkgManager :=
  (PkgQuery_foundSupportedPkgManager World sys_runCommand sys_tryRunCommand
     sys_haveCommand rpm_installedPkg rpm_fileList pacman_installedPkg
     pacman_fileList victim).

(** X15: the object is built by the first static call and by no later
    one.  The first [PkgQuery::owningPkg( path )] of a process does the
    registry build and then the query; a second call for the same path
    returns the same package and does nothing on the host, and a
    [PkgQuery::foundSupportedPkgManager()] after it answers what the build
    found, again without a call to the host. *)
Theorem X15_static_calls_build_once (path : string) (w w2 : World) :
  let first := static_owningPkg None path w in
  let built := newPkgQuery w in
  (exists this : PkgQuery World, snd (value first) = Some this) /\
  trace first =
    trace built ++ trace (getOwningPackage victim (value built) path (world built)) /\
  (let second := static_owningPkg (snd (value first)) path w2 in
   fst (value second) = fst (value first) /\
   world second = w2 /\
   trace second = []) /\
  (let found := static_foundSupportedPkgManager (snd (value first)) w2 in
   fst (value found) = foundSupportedPkgManager (value built) /\
   world found = w2 /\
   trace found = []).
Proof.
  intros first built. subst first built.
  pose proof (newPkgQuery_cacheInv World sys_runCommand sys_tryRunCommand
                sys_haveCommand rpm_installedPkg rpm_fileList pacman_installedPkg
                pacman_fileList victim w) as ((Hmx & _) & _).
  unfold PkgQuery_owningPkg, PkgQuery_foundSupportedPkgManager, PkgQuery_instance,
    instance, bind.
  destruct (newPkgQuery w) as [[this w1] e1].
  cbn [value world trace fst snd] in *.
  assert (Hcost : (CACHE_COST <= QCache.mx (_cache this))%Z)
    by (rewrite Hmx; unfold CACHE_COST, CACHE_SIZE; lia).
  pose proof (getOwningPackage_caches World victim this path w1 Hcost) as Hcached.
  pose proof (getOwningPackage_keeps_registry World victim this path w1) as [Hreg _].
  destruct (getOwningPackage victim this path w1) as [[[pkg this1] w1'] e1'].
  cbn [value world trace fst snd ret] in *.
  split; [now exists this1|].
  split; [now rewrite app_nil_r|].
  split.
  - destruct (getOwningPackage_resident World victim this1 path pkg w2 Hcached)
      as (E & Wd & Tr & _).
    destruct (getOwningPackage victim this1 path w2) as [[[pkg2 this2] w2'] e2].
    cbn [value world trace fst snd] in *. subst. now repeat split.
  - unfold foundSupportedPkgManager. rewrite Hreg. now repeat split.
Qed.

End StaticCalls.

(** ** Least-recently-used eviction *)

Section LeastRecentlyUsed.

Variable World : Type.

Lemma firstn_In_all {A : Type} (x : A) (l : list A) :
  forall i : nat, In x (firstn i l) -> In x l.
Proof.
  induction l as [|a l IH]; intros i Hin.
  - now rewrite firstn_nil in Hin.
  - destruct i as [|i]; [contradiction|].
    cbn [firstn] in Hin. destruct Hin as [E|Hin]; [now left|right; eauto].
Qed.

Lemma removeAt_last (ns : list QCache.Node) :
  QCache.removeAt (List.length ns - 1) ns = firstn (List.length ns - 1) ns.
Proof.
  induction ns as [|n ns IH]; [reflexivity|].
  cbn [List.length]. rewrite Nat.sub_succ, Nat.sub_0_r.
  destruct ns as [|n' ns]; [reflexivity|].
  cbn [List.length] in *. rewrite Nat.sub_succ, Nat.sub_0_r in IH.
  cbn [QCache.removeAt firstn]. f_equal. exact IH.
Qed.

Lemma evict_lru (ns : list QCache.Node) :
  QCache.evict QCache.lru ns = firstn (List.length ns - 1) ns.
Proof.
  unfold QCache.evict, QCache.lru. rewrite Nat.min_id. apply removeAt_last.
Qed.

(** With entries of cost 1, trimming to [m] keeps the [m] most recently
    used entries. *)
Lemma trim_loop_lru (rounds : nat) (m : Z) :
  forall ns : list QCache.Node,
    Forall unitCost ns ->
    (0 <= m)%Z ->
    (List.length ns <= rounds)%nat ->
    QCache.trim_loop QCache.lru rounds m ns = firstn (Z.to_nat m) ns.
Proof.
  induction rounds as [|rounds IH]; intros ns Hu Hm Hr.
  - destruct ns; [now rewrite firstn_nil|cbn [List.length] in Hr; lia].
  - cbn [QCache.trim_loop]. destruct ns as [|n ns]; [now rewrite firstn_nil|].
    rewrite (total_unitCost _ Hu).
    destruct (Z.gtb_spec (Z.of_nat (List.length (n :: ns))) m) as [Hgt|Hle].
    + rewrite evict_lru, IH.
      * rewrite firstn_firstn. f_equal. cbn [List.length] in *. lia.
      * apply Forall_forall. intros x Hx. apply firstn_In_all in Hx.
        eapply Forall_forall; eassumption.
      * assumption.
      * rewrite length_firstn. cbn [List.length] in *. lia.
    + symmetry. apply firstn_all2. lia.
Qed.

Lemma firstn_In_le {A : Type} (x : A) (l : list A) (i k : nat) :
  (i <= k)%nat -> In x (firstn i l) -> In x (firstn k l).
Proof.
  revert i k; induction l as [|a l IH]; intros i k Hik Hin.
  - now rewrite firstn_nil in *.
  - destruct i as [|i]; [contradiction|].
    destruct k as [|k]; [lia|].
    cbn [firstn] in *. destruct Hin as [E|Hin]; [now left|right].
    apply (IH i k); [lia|assumption].
Qed.

Lemma firstn_filter_In {A : Type} (f : A -> bool) (x : A) (l : list A) :
  forall j : nat,
    In x (firstn j l) -> f x = true -> In x (firstn j (filter f l)).
Proof.
  induction l as [|a l IH]; intros j Hin Hf.
  - now rewrite firstn_nil in Hin.
  - destruct j as [|j]; [contradiction|].
    cbn [firstn filter] in *. destruct Hin as [E|Hin].
    + subst a. rewrite Hf. now left.
    + destruct (f a).
      * right. now apply IH.
      * apply (firstn_In_le x _ j (S j)); [lia|]. now apply IH.
Qed.

Lemma within_peek (j : nat) (p v : string) (c : QCache.t) :
  NoDup (QCache.keys c) -> within j p v c -> QCache.peek c p = Some v.
Proof.
  unfold QCache.keys, QCache.peek. intros Hnd (n & Hin & Hk & Ho).
  apply firstn_In_all in Hin. revert Hnd Hin.
  induction (QCache.nodes c) as [|a l IH]; intros Hnd Hin; [contradiction|].
  cbn [map find] in *. inversion Hnd as [|? ? Hnotin Hnd']; subst.
  destruct Hin as [E|Hin].
  - subst a. now rewrite String.eqb_refl.
  - destruct (String.eqb_spec (QCache.key a) (QCache.key n)) as [E|E].
    + exfalso. apply Hnotin. rewrite E. now apply in_map.
    + now apply IH.
Qed.

Lemma getOwningPackage_within_head
    (this : PkgQuery World) (path : string) (w : World) :
  cacheInv (_cache this) ->
  within 1 path (fst (value (getOwningPackage QCache.lru this path w)))
    (_cache (snd (value (getOwningPackage QCache.lru this path w)))).
Proof.
  intros (Hmx & _).
  destruct (QCache.contains (_cache this) path) eqn:Hc.
  - rewrite getOwningPackage_hit by assumption. cbn [value fst snd _cache].
    unfold QCache.lookup.
    destruct (find _ (QCache.nodes (_cache this))) as [n|] eqn:Hfind.
    + apply find_key_In in Hfind as [_ Hk].
      exists n. cbn [fst snd QCache.nodes firstn]. repeat split; auto. now left.
    + exfalso. apply existsb_exists in Hc as (n & Hin & Hk).
      eapply find_none in Hfind; [|exact Hin]. cbv beta in Hfind. congruence.
  - rewrite getOwningPackage_miss by assumption. cbn [value fst snd _cache].
    rewrite insert_nodes by (rewrite Hmx; unfold CACHE_COST, CACHE_SIZE; lia).
    eexists. cbn [snd QCache.nodes firstn]. split; [now left|split; reflexivity].
Qed.

(** A call for another path moves the entry back by at most one place. *)
Lemma getOwningPackage_within_step
    (this : PkgQuery World) (q : string) (w : World) (j : nat) (p v : string) :
  cacheInv (_cache this) ->
  within j p v (_cache this) ->
  q <> p ->
  (j <= 499)%nat ->
  within (S j) p v (_cache (snd (value (getOwningPackage QCache.lru this q w)))).
Proof.
  intros (Hmx & Hu & _) (n & Hin & Hk & Ho) Hqp Hj.
  assert (Hkeep : negb (QCache.key n =? q) = true).
  { apply negb_true_iff. apply String.eqb_neq. congruence. }
  assert (Hfilter : In n (firstn j (QCache.removeKey q (QCache.nodes (_cache this)))))
    by (unfold QCache.removeKey; now apply firstn_filter_In).
  exists n. split; [|now split].
  destruct (QCache.contains (_cache this) q) eqn:Hc.
  - rewrite getOwningPackage_hit by assumption. cbn [value fst snd _cache].
    unfold QCache.lookup.
    destruct (find _ (QCache.nodes (_cache this))) as [nq|] eqn:Hfind.
    + cbn [snd QCache.nodes firstn]. now right.
    + cbn [snd]. apply (firstn_In_le n _ j (S j)); [lia|assumption].
  - rewrite getOwningPackage_miss by assumption. cbn [value fst snd _cache].
    rewrite insert_nodes by (rewrite Hmx; unfold CACHE_COST, CACHE_SIZE; lia).
    cbn [snd QCache.nodes firstn]. right.
    unfold QCache.trim. rewrite trim_loop_lru.
    + rewrite Hmx. change (Z.to_nat (CACHE_SIZE - CACHE_COST)) with 499%nat.
      rewrite firstn_firstn. replace (Nat.min j 499) with j by lia. assumption.
    + now apply removeKey_unitCost.
    + rewrite Hmx. unfold CACHE_COST, CACHE_SIZE. lia.
    + lia.
Qed.

Lemma getOwningPackages_within (qs : list string) :
  forall (this : PkgQuery World) (w : World) (j : nat) (p v : string),
    cacheInv (_cache this) ->
    within j p v (_cache this) ->
    ~ In p qs ->
    (j + List.length qs <= 500)%nat ->
    cacheInv (_cache (value (getOwningPackages QCache.lru this qs w))) /\
    within (j + List.length qs) p v
      (_cache (value (getOwningPackages QCache.lru this qs w))).
Proof.
  induction qs as [|q qs IH]; intros this w j p v Hinv Hw Hnotin Hlen.
  - cbn. rewrite Nat.add_0_r. now split.
  - cbn [getOwningPackages]. unfold bind.
    pose proof (getOwningPackage_cacheInv World QCache.lru this q w Hinv) as Hinv1.
    assert (Hqp : q <> p) by (intros E; apply Hnotin; now left).
    cbn [List.length] in Hlen.
    pose proof (getOwningPackage_within_step this q w j p v Hinv Hw Hqp
                  ltac:(lia)) as Hw1.
    destruct (getOwningPackage QCache.lru this q w) as [[[pkg this1] w1] e1].
    cbn [value fst snd] in *.
    specialize (IH this1 w1 (S j) p v Hinv1 Hw1).
    destruct (getOwningPackages QCache.lru this1 qs w1) as [[this2 w2] e2].
    cbn [value fst snd List.length] in *.
    replace (j + S (List.length qs))%nat with (S j + List.length qs)%nat by lia.
    apply IH; [|lia]. intros Hin. apply Hnotin. now right.
Qed.

(** X16: with Qt's least-recently-used eviction, the answer for a path
    stays in the cache over any 499 further calls for other paths (hits or
    misses, in any order): the next call for the path returns the same
    package and invokes no manager. *)
Theorem X16_lru_keeps_answer_for_499_calls
    (this : PkgQuery World) (p : string) (qs : list string) (w w1 w2 : World) :
  cacheInv (_cache this) ->
  ~ In p qs ->
  (List.length qs <= 499)%nat ->
  let first := getOwningPackage QCache.lru this p w in
  let this' := value (getOwningPackages QCache.lru (snd (value first)) qs w1) in
  let again := getOwningPackage QCache.lru this' p w2 in
  fst (value again) = fst (value first) /\
  world again = w2 /\
  trace again = [].
Proof.
  intros Hinv Hnotin Hlen first this' again.
  pose proof (getOwningPackage_cacheInv World QCache.lru this p w Hinv) as Hinv1.
  pose proof (getOwningPackage_within_head this p w Hinv) as Hhead.
  fold first in Hinv1, Hhead.
  destruct (getOwningPackages_within qs (snd (value first)) w1 1 p
              (fst (value first)) Hinv1 Hhead Hnotin ltac:(lia)) as [Hinv2 Hw2].
  fold this' in Hinv2, Hw2.
  assert (Hpeek : QCache.peek (_cache this') p = Some (fst (value first))).
  { destruct Hinv2 as (_ & _ & Hnd & _). eapply within_peek; eassumption. }
  destruct (getOwningPackage_resident World QCache.lru this' p _ w2 Hpeek)
    as (E & Wd & Tr & _).
  now repeat split.
Qed.

End LeastRecentlyUsed.

(** ** The further properties at sample inputs *)

(** X2 at a listing of two packages, one with an epoch in its version. *)
Lemma X2_witness :
  parsePkgList
    (showPkgList [mkPkgInfo "bash" "5.1-2" "amd64"; mkPkgInfo "zlib1g" "1:1.2.11" "i386"]) =
    [mkPkgInfo "bash" "5.1-2" "amd64"; mkPkgInfo "zlib1g" "1:1.2.11" "i386"].
Proof.
  apply (X2_parsePkgList_showPkgList
           [mkPkgInfo "bash" "5.1-2" "amd64"; mkPkgInfo "zlib1g" "1:1.2.11" "i386"]).
  reflexivity.
Defined.

(** X4 at a host where dpkg-query fails, and at one where it lists one
    package. *)
Lemma X4_witness :
  DpkgPkgManager_installedPkg (Fake.run "dpkg-query: error" 2) 0%nat =
    ([], 1%nat, [RunCommand "/usr/bin/dpkg-query" dpkgQueryArgs]) /\
  DpkgPkgManager_installedPkg (Fake.run (showPkgList [somePkg]) 0) 0%nat =
    ([somePkg], 1%nat, [RunCommand "/usr/bin/dpkg-query" dpkgQueryArgs]).
Proof.
  split.
  - apply (proj1 (X4_dpkg_installedPkg Fake.World (Fake.run "dpkg-query: error" 2)
                    0%nat 1%nat "dpkg-query: error" 2%Z eq_refl)).
    discriminate.
  - apply (proj2 (X4_dpkg_installedPkg Fake.World (Fake.run (showPkgList [somePkg]) 0)
                    0%nat 1%nat (showPkgList [somePkg]) 0%Z eq_refl) [somePkg]);
      reflexivity.
Defined.

(** X5 at an answer of dpkg with an architecture behind the name. *)
Lemma X5_witness :
  DpkgPkgManager_owningPkg
    (Fake.run "libc6:amd64: /lib/x86_64-linux-gnu/libc.so.6" 0) "/lib/x86_64-linux-gnu/libc.so.6"
    0%nat =
    ("libc6", 1%nat, [RunCommand "/usr/bin/dpkg" ["-S"; "/lib/x86_64-linux-gnu/libc.so.6"]]).
Proof.
  apply (X5_dpkg_owningPkg_before_colon Fake.World
           (Fake.run "libc6:amd64: /lib/x86_64-linux-gnu/libc.so.6" 0)
           "/lib/x86_64-linux-gnu/libc.so.6" 0%nat 1%nat
           "libc6" "amd64: /lib/x86_64-linux-gnu/libc.so.6");
    reflexivity.
Defined.

(** X8 at an output of pacman that is a warning. *)
Lemma X8_witness :
  value (PacManPkgManager_owningPkg (Fake.run "warning: database file missing" 0)
           "/bin/ls" 0%nat) = "warning:".
Proof.
  apply (X8_pacman_owningPkg_without_prefix Fake.World
           (Fake.run "warning: database file missing" 0) "/bin/ls" 0%nat 1%nat
           "warning: database file missing");
    reflexivity.
Defined.

(** X13 after calls for "/a" and "/b". *)
Lemma X13_witness :
  In "/b" ["/a"; "/b"] \/ In "/b" (QCache.keys (_cache fakeQuery)).
Proof.
  apply (X13_cache_holds_asked_paths Fake.World QCache.lru ["/a"; "/b"]
           fakeQuery 0%nat "/b").
  left. reflexivity.
Defined.

(** X14 at an object without managers, after three calls. *)
Lemma X14_witness :
  let this' := value (getOwningPackages QCache.lru (queryOf []) ["/a"; "/b"; "/a"] 0%nat) in
  foundSupportedPkgManager this' = false /\
  (forall (path : string) (w' : Fake.World),
      fst (value (getOwningPackage QCache.lru this' path w')) = EmptyString /\
      world (getOwningPackage QCache.lru this' path w') = w' /\
      trace (getOwningPackage QCache.lru this' path w') = []) /\
  (forall w' : Fake.World, getInstalledPkg this' w' = ([], w', [])) /\
  (forall (pkg : PkgInfo) (w' : Fake.World), getFileList this' pkg w' = ([], w', [])).
Proof.
  apply (X14_no_manager_no_host_call Fake.World QCache.lru (queryOf [])
           ["/a"; "/b"; "/a"] 0%nat); reflexivity.
Defined.

(** X16 with 499 other paths between two calls for "/x". *)
Lemma X16_witness :
  let first := getOwningPackage QCache.lru fakeQuery "/x" 0%nat in
  let this' := value (getOwningPackages QCache.lru (snd (value first))
                        (Fake.paths 499) 1%nat) in
  let again := getOwningPackage QCache.lru this' "/x" 500%nat in
  fst (value again) = fst (value first) /\
  world again = 500%nat /\
  trace again = [].
Proof.
  apply (X16_lru_keeps_answer_for_499_calls Fake.World fakeQuery "/x"
           (Fake.paths 499) 0%nat 1%nat 500%nat).
  - unfold cacheInv. cbn. repeat split; try constructor. lia.
  - assert (H : NoDup ("/x" :: Fake.paths 499))
      by (apply nodupb_sound; vm_compute; reflexivity).
    apply NoDup_cons_iff in H. exact (proj1 H).
  - vm_compute. lia.
Defined.
